(** * Contextual Memory Graph System: a shallow embedding of
    [contextual_memory_mvp.py] and the properties of its memory-weaving and
    retrieval engine.

    Conventions of the embedding.
    - Python [str] values are Rocq [string]s read as ASCII text; [str.lower],
      [str.split] and [str.encode] are written out for that alphabet.
    - Python [float] values (timestamps, scores, importance, strength) are
      exact rationals [Q] in the model of the whole engine; the arithmetic
      of the source is kept operation by operation.  Where the outcome hangs
      on a floating-point comparison, the code is modelled a second time in
      binary64 ([PrimFloat]): [Module FloatBoundary] re-evaluates the
      importance formula at the points where the caps switch, and
      [Module F64] is the scoring, the relevance floor and the ranking of
      [find_related_memories] on IEEE doubles.
    - The SQLite database is an explicit [Store]: one row list per table, in
      scan (rowid) order.  [INSERT OR REPLACE] deletes the row carrying the
      primary key and appends the new row.  Code that talks to the database
      is written in a small state monad [DB].
    - [time.time()] is an explicit argument [now].
    - The regular-expression extractors ([NLPProcessor.extract_entities],
      [NLPProcessor.extract_relationships]) are the two fields of the
      record [NLPProcessor], and Python's [str(float)] is a function
      [float_str]; the engine is stated for any of them, and [Module Demo]
      gives the values the source's patterns produce on two sentences. *)

From Stdlib Require Import ZArith QArith Qminmax Lqa String Ascii List Bool Lia.
From Stdlib Require Import Sorted Permutation PrimFloat Uint63.
From Stdlib Require SpecFloat FloatOps FloatAxioms.
From stdpp Require Import base list strings gmap.

Local Open Scope string_scope.
Local Open Scope Z_scope.

(* ===================================================================== *)
(** ** Text primitives *)
(* ===================================================================== *)

Module Text.

(** [str.lower()] on ASCII text: only [A-Z] move. *)
Definition lower_ascii (c : ascii) : ascii :=
  let n := nat_of_ascii c in
  if (Nat.leb 65 n && Nat.leb n 90)%bool then ascii_of_nat (n + 32) else c.

Fixpoint lower (s : string) : string :=
  match s with
  | EmptyString => EmptyString
  | String c r => String (lower_ascii c) (lower r)
  end.

(** The characters [str.split()] (no argument) treats as separators in
    ASCII text: TAB, LF, VT, FF, CR, FS, GS, RS, US and space. *)
Definition is_space (c : ascii) : bool :=
  let n := nat_of_ascii c in
  ((Nat.leb 9 n && Nat.leb n 13) || (Nat.leb 28 n && Nat.leb n 32))%bool.

(** [str.split()]: maximal runs of non-separator characters, in order.
    [cur] is the word being read, reversed. *)
Fixpoint split_go (s : string) (cur : list ascii) : list string :=
  match s with
  | EmptyString =>
      match cur with
      | [] => []
      | _ => [string_of_list_ascii (rev cur)]
      end
  | String c r =>
      if is_space c then
        match cur with
        | [] => split_go r []
        | _ => string_of_list_ascii (rev cur) :: split_go r []
        end
      else split_go r (c :: cur)
  end.

Definition split (s : string) : list string := split_go s [].

(** [str(n)] for a non-negative integer. *)
Definition digit (n : Z) : ascii := ascii_of_nat (48 + Z.to_nat n).

Fixpoint decimal_go (fuel : nat) (n : Z) (acc : string) : string :=
  match fuel with
  | O => acc
  | S f =>
      let acc' := String (digit (n mod 10)) acc in
      if n / 10 =? 0 then acc' else decimal_go f (n / 10) acc'
  end.

Definition decimal (n : Z) : string :=
  decimal_go (S (Z.to_nat (Z.log2 n))) n EmptyString.

End Text.

(* ===================================================================== *)
(** ** [hashlib.md5(...).hexdigest()] (RFC 1321) *)
(* ===================================================================== *)

Module MD5.

Definition w32 (x : Z) : Z := Z.land x 4294967295.

Definition not32 (x : Z) : Z := Z.lxor (w32 x) 4294967295.

Definition rotl32 (x c : Z) : Z :=
  w32 (Z.lor (Z.shiftl (w32 x) c) (Z.shiftr (w32 x) (32 - c))).

Definition shifts : list Z :=
  [7; 12; 17; 22; 7; 12; 17; 22; 7; 12; 17; 22; 7; 12; 17; 22;
   5; 9; 14; 20; 5; 9; 14; 20; 5; 9; 14; 20; 5; 9; 14; 20;
   4; 11; 16; 23; 4; 11; 16; 23; 4; 11; 16; 23; 4; 11; 16; 23;
   6; 10; 15; 21; 6; 10; 15; 21; 6; 10; 15; 21; 6; 10; 15; 21].

(** [floor(2^32 * |sin(i + 1)|)] for [i = 0 .. 63]. *)
Definition sines : list Z :=
  [3614090360; 3905402710; 606105819; 3250441966; 4118548399; 1200080426;
   2821735955; 4249261313; 1770035416; 2336552879; 4294925233; 2304563134;
   1804603682; 4254626195; 2792965006; 1236535329; 4129170786; 3225465664;
   643717713; 3921069994; 3593408605; 38016083; 3634488961; 3889429448;
   568446438; 3275163606; 4107603335; 1163531501; 2850285829; 4243563512;
   1735328473; 2368359562; 4294588738; 2272392833; 1839030562; 4259657740;
   2763975236; 1272893353; 4139469664; 3200236656; 681279174; 3936430074;
   3572445317; 76029189; 3654602809; 3873151461; 530742520; 3299628645;
   4096336452; 1126891415; 2878612391; 4237533241; 1700485571; 2399980690;
   4293915773; 2240044497; 1873313359; 4264355552; 2734768916; 1309151649;
   4149444226; 3174756917; 718787259; 3951481745].

Definition bytes_of_string (s : string) : list Z :=
  map (fun c => Z.of_nat (nat_of_ascii c)) (list_ascii_of_string s).

(** Little-endian bytes of [x], [n] of them. *)
Fixpoint le_bytes (n : nat) (x : Z) : list Z :=
  match n with
  | O => []
  | S k => Z.land x 255 :: le_bytes k (Z.shiftr x 8)
  end.

Definition pad (msg : list Z) : list Z :=
  let len := Z.of_nat (length msg) in
  msg ++ [128] ++ repeat 0 (Z.to_nat ((55 - len) mod 64))
      ++ le_bytes 8 ((8 * len) mod 2 ^ 64).

Fixpoint le_word (bs : list Z) : Z :=
  match bs with
  | [] => 0
  | b :: r => b + 256 * le_word r
  end.

(** Cut a list into consecutive pieces of [n] elements. *)
Fixpoint chunks (fuel n : nat) (l : list Z) : list (list Z) :=
  match fuel with
  | O => []
  | S f =>
      match l with
      | [] => []
      | _ => firstn n l :: chunks f n (skipn n l)
      end
  end.

Definition words_of_block (blk : list Z) : list Z :=
  map le_word (chunks 16 4 blk).

Record regs := Regs { rA : Z; rB : Z; rC : Z; rD : Z }.

Definition step (M : list Z) (r : regs) (i : Z) : regs :=
  let '(Regs a b c d) := r in
  let '(f, g) :=
    if i <? 16 then (Z.lor (Z.land b c) (Z.land (not32 b) d), i)
    else if i <? 32 then (Z.lor (Z.land d b) (Z.land (not32 d) c), (5 * i + 1) mod 16)
    else if i <? 48 then (Z.lxor (Z.lxor b c) d, (3 * i + 5) mod 16)
    else (Z.lxor c (Z.lor b (not32 d)), (7 * i) mod 16) in
  let f' := w32 (f + a + nth (Z.to_nat i) sines 0 + nth (Z.to_nat g) M 0) in
  Regs d (w32 (b + rotl32 f' (nth (Z.to_nat i) shifts 0))) b c.

Definition process_block (r : regs) (blk : list Z) : regs :=
  let M := words_of_block blk in
  let r' := fold_left (step M) (map Z.of_nat (seq 0 64)) r in
  Regs (w32 (rA r + rA r')) (w32 (rB r + rB r'))
       (w32 (rC r + rC r')) (w32 (rD r + rD r')).

Definition digest (msg : list Z) : list Z :=
  let p := pad msg in
  let r := fold_left process_block (chunks (length p) 64 p)
             (Regs 1732584193 4023233417 2562383102 271733878) in
  le_bytes 4 (rA r) ++ le_bytes 4 (rB r) ++ le_bytes 4 (rC r) ++ le_bytes 4 (rD r).

Definition hex_digit (n : Z) : ascii :=
  if n <? 10 then ascii_of_nat (48 + Z.to_nat n) else ascii_of_nat (87 + Z.to_nat n).

Fixpoint hex (bs : list Z) : string :=
  match bs with
  | [] => EmptyString
  | b :: r => String (hex_digit (b / 16)) (String (hex_digit (b mod 16)) (hex r))
  end.

Definition hexdigest (s : string) : string := hex (digest (bytes_of_string s)).

End MD5.

(** [s[:n]] on a string, for [n >= 0]. *)
Fixpoint str_take (n : nat) (s : string) : string :=
  match n, s with
  | S k, String c r => String c (str_take k r)
  | _, _ => EmptyString
  end.

(** [ContextWeaver._generate_id]: [hashlib.md5(content.encode()).hexdigest()[:12]]. *)
Definition _generate_id (content : string) : string :=
  str_take 12 (MD5.hexdigest content).

(* ===================================================================== *)
(** ** Core data structures *)
(* ===================================================================== *)

Module Entity.
(** [properties] is the JSON object the source stores, here always
    [{'contexts': [...]}]: keys with their lists of strings. *)
Record t := mk {
  id : string;
  name : string;
  type : string;
  properties : list (string * list string);
  created_at : Q;
  last_accessed : Q;
  access_count : Z;
  importance_score : Q
}.
End Entity.

Module Relationship.
Record t := mk {
  id : string;
  source_id : string;
  target_id : string;
  relation_type : string;
  strength : Q;
  context : string;
  created_at : Q;
  last_reinforced : Q
}.
End Relationship.

Module Memory.
Record t := mk {
  id : string;
  content : string;
  entities : list string;
  relationships : list string;
  timestamp : Q;
  context_tags : list string;
  importance : Q
}.
End Memory.

(* ===================================================================== *)
(** ** The database: tables, the [DB] monad and the SQL statements used *)
(* ===================================================================== *)

(** The three tables of [MobileGraphStorage._init_database], each in scan
    order.  [id] is the primary key of each table. *)
Record Store := mkStore {
  entities : list Entity.t;
  relationships : list Relationship.t;
  memories : list Memory.t
}.

Definition empty_store : Store := mkStore [] [] [].

Definition DB (A : Type) : Type := Store -> A * Store.

Definition ret {A} (a : A) : DB A := fun st => (a, st).

Definition bind {A B} (m : DB A) (k : A -> DB B) : DB B :=
  fun st => let '(a, st') := m st in k a st'.

#[global] Instance DB_ret : MRet DB := @ret.
#[global] Instance DB_bind : MBind DB := fun A B k m => bind m k.

(** A Python [for] loop that collects one value per iteration. *)
Fixpoint for_each {A B} (body : A -> DB B) (l : list A) : DB (list B) :=
  match l with
  | [] => ret []
  | a :: r => b ← body a; bs ← for_each body r; ret (b :: bs)
  end.

Module Sql.

(** Stable insertion sort with respect to a strict "comes first" test:
    [ORDER BY ... DESC] and [list.sort(reverse=True)] keep rows that the
    test does not separate in the order of their input. *)
Section Sorting.
Context {A : Type} (before : A -> A -> bool).

Fixpoint insert_sorted (x : A) (l : list A) : list A :=
  match l with
  | [] => [x]
  | y :: r => if before y x then y :: insert_sorted x r else x :: y :: r
  end.

Fixpoint stable_sort (l : list A) : list A :=
  match l with
  | [] => []
  | x :: r => insert_sorted x (stable_sort r)
  end.

(** [a] may stand in front of [b]: [b] does not come strictly first. *)
Definition not_after (a b : A) : Prop := before b a = false.
End Sorting.

Definition Qgtb (a b : Q) : bool := negb (Qle_bool a b).

(** [INSERT OR REPLACE INTO entities ...]: the row with the same primary
    key is deleted, the new row gets a fresh rowid (end of the scan). *)
Definition replace_entity (e : Entity.t) : DB unit := fun st =>
  (tt, mkStore
         (filter (fun x => Entity.id x ≠ Entity.id e) (entities st) ++ [e])
         (relationships st) (memories st)).

Definition replace_relationship (r : Relationship.t) : DB unit := fun st =>
  (tt, mkStore (entities st)
         (filter (fun x => Relationship.id x ≠ Relationship.id r) (relationships st) ++ [r])
         (memories st)).

Definition replace_memory (m : Memory.t) : DB unit := fun st =>
  (tt, mkStore (entities st) (relationships st)
         (filter (fun x => Memory.id x ≠ Memory.id m) (memories st) ++ [m])).

(** [SELECT * FROM entities WHERE id = ?] followed by [fetchone()]. *)
Definition select_entity (entity_id : string) : DB (option Entity.t) := fun st =>
  (head (filter (fun x => Entity.id x = entity_id) (entities st)), st).

(** [SELECT ... FROM memories ORDER BY importance DESC, timestamp DESC]. *)
Definition memory_before (a b : Memory.t) : bool :=
  Qgtb (Memory.importance a) (Memory.importance b)
  || (Qeq_bool (Memory.importance a) (Memory.importance b)
      && Qgtb (Memory.timestamp a) (Memory.timestamp b)).

Definition select_memories : DB (list Memory.t) := fun st =>
  (stable_sort memory_before (memories st), st).

(** One row of the join in [get_entity_network]: the relationship columns
    ([r.*]) followed by [source_name] and [target_name]. *)
Record NetworkRow := mkRow {
  rel : Relationship.t;
  source_name : string;
  target_name : string
}.

Definition entity_names_of (entity_id : string) (es : list Entity.t) : list string :=
  map Entity.name (filter (fun e => Entity.id e = entity_id) es).

(** [FROM relationships r JOIN entities e1 ON r.source_id = e1.id
     JOIN entities e2 ON r.target_id = e2.id]: an inner join, so a
    relationship yields a row only for entities found on both sides. *)
Definition join_rows (es : list Entity.t) (r : Relationship.t) : list NetworkRow :=
  s ← entity_names_of (Relationship.source_id r) es;
  t ← entity_names_of (Relationship.target_id r) es;
  [mkRow r s t].

Definition row_before (a b : NetworkRow) : bool :=
  Qgtb (Relationship.strength (rel a)) (Relationship.strength (rel b)).

(** [... WHERE r.source_id = ? OR r.target_id = ? ORDER BY r.strength DESC].
    SQL leaves the order of rows of equal strength to the query plan; the
    scan order kept here is one such order, and no property below reads
    the order of two rows of equal strength. *)
Definition select_network (entity_id : string) : DB (list NetworkRow) := fun st =>
  (stable_sort row_before
     (r ← filter (fun r => Relationship.source_id r = entity_id
                           ∨ Relationship.target_id r = entity_id)
                 (relationships st);
      join_rows (entities st) r), st).

(** SQLite's [LIKE]: [%] matches any run of characters, [_] exactly one
    character, any other character itself, upper and lower case ASCII
    letters being equal.  No escape character is declared in the source.
    This is the match for patterns of at most 50,000 bytes; SQLite refuses
    longer ones ([pattern_ok] below). *)
Fixpoint like (pat : string) (s : string) : bool :=
  match pat with
  | EmptyString => match s with EmptyString => true | _ => false end
  | String p pat' =>
      if Ascii.eqb p "%" then
        (fix any (s : string) : bool :=
           like pat' s || match s with
                          | EmptyString => false
                          | String _ s' => any s'
                          end) s
      else
        match s with
        | EmptyString => false
        | String c s' =>
            (Ascii.eqb p "_" || Ascii.eqb (Text.lower_ascii p) (Text.lower_ascii c))
            && like pat' s'
        end
  end.

(** [SELECT e.name, e.type FROM entities e WHERE LOWER(e.name) LIKE LOWER(?)]. *)
Definition select_entities_like (pattern : string) : DB (list (string * string)) := fun st =>
  (map (fun e => (Entity.name e, Entity.type e))
       (filter (fun e => like (Text.lower pattern) (Text.lower (Entity.name e)) = true)
               (entities st)), st).

End Sql.

(* ===================================================================== *)
(** ** [MobileGraphStorage], [NLPProcessor] *)
(* ===================================================================== *)

Local Open Scope Q_scope.

(** The [try] branch of [MobileGraphStorage.store_entity]: the row is
    written and the result is [True].  This is the whole function for the
    entities [weave_memory] writes, whose [access_count] is a count of
    mentions. *)
Definition store_entity (entity : Entity.t) : DB bool :=
  _ ← Sql.replace_entity entity; ret true.

(** An [INTEGER] column holds a signed 64-bit value. *)
Definition sqlite_integer (n : Z) : bool :=
  ((- 2 ^ 63 <=? n) && (n <? 2 ^ 63))%Z.

(** [MobileGraphStorage.store_entity] on any [Entity] object, with its
    [except] branch: binding an [access_count] that does not fit an
    [INTEGER] raises [OverflowError] before anything is written, and the
    function reports [False]. *)
Definition store_entity_checked (entity : Entity.t) : DB bool :=
  if sqlite_integer (Entity.access_count entity)
  then store_entity entity
  else ret false.

(** [MobileGraphStorage.get_entity]: the row read back as an [Entity]. *)
Definition get_entity (entity_id : string) : DB (option Entity.t) :=
  Sql.select_entity entity_id.

(** The two extractors of [NLPProcessor], as the engine consumes them:
    [extract_entities] yields [(name, type, context)] and
    [extract_relationships] yields [(source, target, relation_type, context)]. *)
Record NLPProcessor := mkNLP {
  extract_entities : string -> list (string * string * string);
  extract_relationships : string -> list string -> list (string * string * string * string)
}.

(** [NLPProcessor.calculate_text_similarity]. *)
Definition word_set (text : string) : gset string :=
  list_to_set (Text.split (Text.lower text)).

Definition calculate_text_similarity (text1 text2 : string) : Q :=
  let words1 := word_set text1 in
  let words2 := word_set text2 in
  if decide (words1 = ∅ ∨ words2 = ∅) then 0
  else
    let intersection := words1 ∩ words2 in
    let union := words1 ∪ words2 in
    if decide (union = ∅) then 0
    else inject_Z (Z.of_nat (size intersection)) / inject_Z (Z.of_nat (size union)).

(* ===================================================================== *)
(** ** [ContextWeaver] *)
(* ===================================================================== *)

(** [ContextWeaver._store_relationship] and [_store_memory]. *)
Definition _store_relationship (relationship : Relationship.t) : DB unit :=
  Sql.replace_relationship relationship.

Definition _store_memory (memory : Memory.t) : DB unit :=
  Sql.replace_memory memory.

(** [ContextWeaver._calculate_memory_importance]. *)
Definition _calculate_memory_importance (content : string) (entities : list string) : Q :=
  let base_score := 0.5 in
  let entity_boost := Qmin (inject_Z (Z.of_nat (length entities)) * 0.1) 0.3 in
  let length_boost := Qmin (inject_Z (Z.of_nat (String.length content)) / 1000) 0.2 in
  base_score + entity_boost + length_boost.

(** Body of the loop "Process entities" of [weave_memory]. *)
Definition weave_entity (current_time : Q) (cand : string * string * string) : DB string :=
  let '(entity_name, entity_type, entity_context) := cand in
  let entity_id := _generate_id (Text.lower entity_name) in
  existing_entity ← get_entity entity_id;
  match existing_entity with
  | Some e =>
      _ ← store_entity
            (Entity.mk (Entity.id e) (Entity.name e) (Entity.type e)
               (Entity.properties e) (Entity.created_at e)
               current_time
               (Entity.access_count e + 1)%Z
               (Entity.importance_score e + 0.1));
      ret entity_id
  | None =>
      _ ← store_entity
            (Entity.mk entity_id entity_name entity_type
               [("contexts", [entity_context])]
               current_time current_time 1%Z 0.5);
      ret entity_id
  end.

(** Body of the loop "Extract and store relationships" of [weave_memory]. *)
Definition relationship_of (current_time : Q)
    (cand : string * string * string * string) : Relationship.t :=
  let '(source, target, relation_type, rel_context) := cand in
  let source_id := _generate_id (Text.lower source) in
  let target_id := _generate_id (Text.lower target) in
  let relationship_id :=
    _generate_id (source_id ++ "_" ++ target_id ++ "_" ++ relation_type) in
  Relationship.mk relationship_id source_id target_id relation_type
    0.7 rel_context current_time current_time.

Definition weave_relationship (current_time : Q)
    (cand : string * string * string * string) : DB string :=
  let relationship := relationship_of current_time cand in
  _ ← _store_relationship relationship;
  ret (Relationship.id relationship).

Section Engine.

Variable nlp : NLPProcessor.
(** Python's [str] on a [float] (the shortest round-trip decimal). *)
Variable float_str : Q -> string.

(** [ContextWeaver.weave_memory]; [current_time] stands for [time.time()]. *)
Definition weave_memory (content : string) (context_tags : option (list string))
    (current_time : Q) : DB Memory.t :=
  let memory_id := _generate_id (content ++ float_str current_time) in
  let context_tags := default [] context_tags in
  let extracted_entities := extract_entities nlp content in
  entity_objects ← for_each (weave_entity current_time) extracted_entities;
  let entity_names := map (fun c => fst (fst c)) extracted_entities in
  let extracted_relationships := extract_relationships nlp content entity_names in
  relationship_objects ← for_each (weave_relationship current_time) extracted_relationships;
  let memory :=
    Memory.mk memory_id content entity_objects relationship_objects
      current_time context_tags
      (_calculate_memory_importance content entity_objects) in
  _ ← _store_memory memory;
  ret memory.

(* ===================================================================== *)
(** ** [MemoryRetriever] *)
(* ===================================================================== *)

(** One element of the list [find_related_memories] returns. *)
Record ScoredMemory := mkScored {
  sm_id : string;
  sm_content : string;
  sm_score : Q;
  sm_timestamp : Q;
  sm_importance : Q
}.

(** [l[:limit]] for a Python [int]: a negative [limit] counts from the end. *)
Definition slice_to {A} (limit : Z) (l : list A) : list A :=
  if (0 <=? limit)%Z then take (Z.to_nat limit) l
  else take (Z.to_nat (Z.of_nat (length l) + limit)) l.

Definition total_score (query : string) (m : Memory.t) : Q :=
  let content_similarity := calculate_text_similarity query (Memory.content m) in
  let query_entities := map (fun c => fst (fst c)) (extract_entities nlp query) in
  let memory_entities := Memory.entities m in
  let entity_boost :=
    match query_entities, memory_entities with
    | _ :: _, _ :: _ => 0.2
    | _, _ => 0
    end in
  content_similarity + entity_boost + Memory.importance m * 0.1.

Definition score_row (query : string) (m : Memory.t) : list ScoredMemory :=
  let s := total_score query m in
  if Sql.Qgtb s 0.1
  then [mkScored (Memory.id m) (Memory.content m) s (Memory.timestamp m) (Memory.importance m)]
  else [].

Definition score_before (a b : ScoredMemory) : bool := Sql.Qgtb (sm_score a) (sm_score b).

(** [MemoryRetriever.find_related_memories]. *)
Definition find_related_memories (query : string) (limit : Z) : DB (list ScoredMemory) :=
  memories ← Sql.select_memories;
  let scored_memories := m ← memories; score_row query m in
  let scored_memories := Sql.stable_sort score_before scored_memories in
  ret (slice_to limit scored_memories).

(** A value of a Python collection that mixes floats and strings. *)
Inductive PyValue :=
| PyFloat (x : Q)
| PyStr (s : string).

(** [==] on such values: floats by value, strings by text, and a float is
    never equal to a string. *)
Definition py_eqb (a b : PyValue) : bool :=
  match a, b with
  | PyFloat x, PyFloat y => Qeq_bool x y
  | PyStr s, PyStr t => String.eqb s t
  | _, _ => false
  end.

(** [set.add], the set kept as a list without repetition (the order in
    which Python later lists a set is not specified). *)
Definition set_add (v : PyValue) (s : list PyValue) : list PyValue :=
  if existsb (py_eqb v) s then s else s ++ [v].

(** The ten columns of one row of the join, in the order of
    [SELECT r.*, e1.name as source_name, e2.name as target_name]: the eight
    columns of [relationships] (indices 0 to 7), then [source_name]
    (index 8) and [target_name] (index 9). *)
Definition columns (row : Sql.NetworkRow) : list PyValue :=
  [PyStr (Relationship.id (Sql.rel row));
   PyStr (Relationship.source_id (Sql.rel row));
   PyStr (Relationship.target_id (Sql.rel row));
   PyStr (Relationship.relation_type (Sql.rel row));
   PyFloat (Relationship.strength (Sql.rel row));
   PyStr (Relationship.context (Sql.rel row));
   PyFloat (Relationship.created_at (Sql.rel row));
   PyFloat (Relationship.last_reinforced (Sql.rel row));
   PyStr (Sql.source_name row);
   PyStr (Sql.target_name row)].

(** [rel[i]]. *)
Definition column (i : nat) (row : Sql.NetworkRow) : PyValue :=
  nth i (columns row) (PyStr "").

(** The dictionaries built by [get_entity_network].  ['source'] is
    [rel[7]] and ['target'] is [rel[8]], as the source indexes the row:
    the relationship's [last_reinforced] and the source entity's name. *)
Record RelData := mkRelData {
  rd_source : PyValue;
  rd_target : PyValue;
  rd_type : string;
  rd_strength : Q;
  rd_context : string
}.

Record Network := mkNetwork {
  center_entity : string;
  net_relationships : list RelData;
  connected_entities : list PyValue
}.

Definition rel_data (row : Sql.NetworkRow) : RelData :=
  mkRelData (column 7 row) (column 8 row)
    (Relationship.relation_type (Sql.rel row))
    (Relationship.strength (Sql.rel row))
    (Relationship.context (Sql.rel row)).

(** [network['connected_entities']] after the loop over the rows:
    [add(rel[7])], then [add(rel[8])], row by row. *)
Definition connected_of (rows : list Sql.NetworkRow) : list PyValue :=
  foldl (fun acc row => set_add (column 8 row) (set_add (column 7 row) acc)) [] rows.

Definition network_of (entity_name : string) (rows : list Sql.NetworkRow) : Network :=
  mkNetwork entity_name (map rel_data rows) (connected_of rows).

(** [MemoryRetriever.get_entity_network], the recursion unrolled [fuel]
    times: [None] only when the fuel is used up. *)
Fixpoint get_entity_network_fuel (fuel : nat) (entity_name : string) (depth : Z)
    : DB (option Network) :=
  match fuel with
  | O => ret None
  | S fuel' =>
      let entity_id := _generate_id (Text.lower entity_name) in
      relationships ← Sql.select_network entity_id;
      let network := network_of entity_name relationships in
      match relationships with
      | [] =>
          matches ← Sql.select_entities_like ("%" ++ Text.lower entity_name ++ "%");
          match matches with
          | (match_name, _) :: _ =>
              if negb (String.eqb (Text.lower match_name) (Text.lower entity_name))
              then get_entity_network_fuel fuel' match_name depth
              else ret (Some network)
          | [] => ret (Some network)
          end
      | _ :: _ => ret (Some network)
      end
  end.

(** The recursion never goes deeper than one call per stored entity, plus
    the first call and the last, which the termination theorem below shows. *)
Definition get_entity_network (entity_name : string) (depth : Z) : DB (option Network) :=
  fun st => get_entity_network_fuel (2 + length (entities st)) entity_name depth st.

(* ===================================================================== *)
(** ** [ContextualMemorySystem] *)
(* ===================================================================== *)

Definition add_memory (content : string) (context_tags : option (list string))
    (current_time : Q) : DB string :=
  memory ← weave_memory content context_tags current_time;
  ret ("Memory stored with ID: " ++ Memory.id memory)%string.

Definition query_memory (query : string) (limit : Z) : DB (list ScoredMemory) :=
  find_related_memories query limit.

Definition explore_entity (entity_name : string) : DB (option Network) :=
  get_entity_network entity_name 2.

End Engine.

(* ===================================================================== *)
(** ** A concrete instance for closed examples *)
(* ===================================================================== *)

Module Demo.

Definition text : string := "John works at Google.".
Definition text_acme : string := "John works at Acme.".

(** What the source's regular expressions return on the two sentences
    (and on texts without any capitalised word pair, keyword or relation
    phrase, such as the empty string or "John", where they return nothing).
    On [text]: PERSON finds "John" (a word followed by "works"), then the
    word pairs "John works" and "at Google"; ORGANIZATION finds "Google";
    the only relation phrase is "John works at Google" (WORKS_AT).  On
    [text_acme] likewise, except that no pattern finds "Acme" on its own.
    Every context window covers the whole sentence. *)
Definition nlp : NLPProcessor :=
  mkNLP
    (fun t =>
       if String.eqb t text
       then [("John", "PERSON", text); ("John works", "PERSON", text);
             ("at Google", "PERSON", text); ("Google", "ORGANIZATION", text)]
       else if String.eqb t text_acme
       then [("John", "PERSON", text_acme); ("John works", "PERSON", text_acme);
             ("at Acme", "PERSON", text_acme)]
       else [])
    (fun t _ =>
       if String.eqb t text then [("John", "Google", "WORKS_AT", text)]
       else if String.eqb t text_acme then [("John", "Acme", "WORKS_AT", text_acme)]
       else []).

(** [str(x)] for a float holding a non-negative integer below [1e16]:
    its decimal digits followed by ".0". *)
Definition float_str (x : Q) : string :=
  (Text.decimal (Qnum x / Zpos (Qden x)) ++ ".0")%string.

(** The store after [weave_memory(text)] at time 1 on a fresh database. *)
Definition store1 : Store := snd (weave_memory nlp float_str text None 1 empty_store).

(** The store after a second [weave_memory(text)] at time 2. *)
Definition store2 : Store := snd (weave_memory nlp float_str text None 2 store1).


End Demo.

(* ===================================================================== *)
(** ** Calls of the public interface and the stores they reach *)
(* ===================================================================== *)

Inductive Call :=
| AddMemory (content : string) (context_tags : option (list string)) (now : Q)
| QueryMemory (query : string) (limit : Z)
| ExploreEntity (entity_name : string).

Definition run_call (nlp : NLPProcessor) (float_str : Q -> string)
    (c : Call) (st : Store) : Store :=
  match c with
  | AddMemory content tags now => snd (add_memory nlp float_str content tags now st)
  | QueryMemory query limit => snd (query_memory nlp query limit st)
  | ExploreEntity entity_name => snd (explore_entity entity_name st)
  end.

(** The store after a sequence of calls on a fresh database. *)
Definition run_calls (nlp : NLPProcessor) (float_str : Q -> string)
    (calls : list Call) : Store :=
  foldl (fun st c => run_call nlp float_str c st) empty_store calls.

(* ===================================================================== *)
(** ** Definitions used to state the properties *)
(* ===================================================================== *)

(** An entity row after one more mention at time [now]. *)
Definition reinforced (e : Entity.t) (now : Q) : Entity.t :=
  Entity.mk (Entity.id e) (Entity.name e) (Entity.type e) (Entity.properties e)
    (Entity.created_at e) now (Entity.access_count e + 1)%Z (Entity.importance_score e + 0.1).

(** The importance formula as the specification words it. *)
Definition importance_formula (entityCount contentLength : nat) : Q :=
  0.5 + Qmin (0.1 * inject_Z (Z.of_nat entityCount)) 0.3
      + Qmin (inject_Z (Z.of_nat contentLength) / 1000) 0.2.

(** Jaccard overlap of two word sets, 0 when either is empty. *)
Definition jaccard (a b : gset string) : Q :=
  if decide (a = ∅ ∨ b = ∅) then 0
  else inject_Z (Z.of_nat (size (a ∩ b))) / inject_Z (Z.of_nat (size (a ∪ b))).

(** The relevance score as the specification words it. *)
Definition score_formula (nlp : NLPProcessor) (query : string) (m : Memory.t) : Q :=
  jaccard (word_set query) (word_set (Memory.content m))
  + (if decide (extract_entities nlp query ≠ [] ∧ Memory.entities m ≠ []) then 0.2 else 0)
  + Memory.importance m * 0.1.

#[global] Instance Qlt_decision (x y : Q) : Decision (x < y).
Proof. unfold Qlt. apply _. Defined.

(** The relevance floor of [find_related_memories]. *)
Definition relevant (nlp : NLPProcessor) (query : string) (m : Memory.t) : Prop :=
  0.1 < total_score nlp query m.

#[global] Instance relevant_decision nlp query m : Decision (relevant nlp query m).
Proof. unfold relevant. apply _. Defined.

(** The record [find_related_memories] returns for a memory. *)
Definition scored (nlp : NLPProcessor) (query : string) (m : Memory.t) : ScoredMemory :=
  mkScored (Memory.id m) (Memory.content m) (total_score nlp query m)
    (Memory.timestamp m) (Memory.importance m).

(** [q in s] on strings. *)
Fixpoint starts_with (s q : string) : bool :=
  match q, s with
  | EmptyString, _ => true
  | String a q', String b s' => Ascii.eqb a b && starts_with s' q'
  | String _ _, EmptyString => false
  end.

Fixpoint contains (s q : string) : bool :=
  starts_with s q
  || match s with
     | EmptyString => false
     | String _ s' => contains s' q
     end.


(** The name [get_entity_network entity_name] calls itself with, if it does:
    rows of the join are absent, some entity name matches the pattern, and
    the first match differs from [entity_name] up to case. *)
Definition fallback_step (entity_name : string) (st : Store) : option string :=
  match fst (Sql.select_network (_generate_id (Text.lower entity_name)) st) with
  | [] =>
      match fst (Sql.select_entities_like ("%" ++ Text.lower entity_name ++ "%") st) with
      | (match_name, _) :: _ =>
          if negb (String.eqb (Text.lower match_name) (Text.lower entity_name))
          then Some match_name else None
      | [] => None
      end
  | _ :: _ => None
  end.

(** The rows [select_entities_like] keeps for the pattern built from [entity_name]. *)
Definition like_match (entity_name : string) (e : Entity.t) : Prop :=
  Sql.like (Text.lower ("%" +:+ Text.lower entity_name +:+ "%"))
           (Text.lower (Entity.name e)) = true.

#[global] Instance like_match_decision entity_name e : Decision (like_match entity_name e).
Proof. unfold like_match. apply _. Defined.

(** Binary64 evaluation of [_calculate_memory_importance] at the points
    where its two caps begin to apply. *)
Module FloatBoundary.
Import PrimFloat.
Local Open Scope float_scope.
Local Set Warnings "-inexact-float".

(** Python's [min(a, b)]: [b] only when [b < a]. *)
Definition py_min (a b : float) : float := if ltb b a then b else a.

Definition of_len (n : Z) : float := of_uint63 (Uint63.of_Z n).

Definition entity_boost (n : Z) : float := py_min (of_len n * 0.1) 0.3.
Definition length_boost (n : Z) : float := py_min (of_len n / 1000) 0.2.
Definition importance (n_entities n_chars : Z) : float :=
  0.5 + entity_boost n_entities + length_boost n_chars.
End FloatBoundary.

(* ===================================================================== *)
(** ** Scoring and ranking in binary64 *)
(* ===================================================================== *)

(** [find_related_memories] and the functions it calls, on IEEE doubles.
    The rows of [memories] are as the code writes and reads them: neither
    [timestamp] nor [importance] is a NaN (SQLite stores a NaN as NULL,
    and the code never produces one). *)
Module F64.
Import PrimFloat.
Local Open Scope float_scope.
Local Set Warnings "-inexact-float".

(** One row of the table [memories]. *)
Record Memory := mk {
  id : string;
  content : string;
  entities : list string;
  relationships : list string;
  timestamp : float;
  context_tags : list string;
  importance : float
}.

(** Python's [min(a, b)]: [b] only when [b < a]. *)
Definition py_min (a b : float) : float := if b <? a then b else a.

(** [float(n)] for a length [n]; lengths stay far below [2^53], where the
    conversion is exact and [len(a) / len(b)] is the quotient of the two
    doubles. *)
Definition of_len (n : nat) : float := of_uint63 (Uint63.of_Z (Z.of_nat n)).

(** [NLPProcessor.calculate_text_similarity]. *)
Definition calculate_text_similarity (text1 text2 : string) : float :=
  let words1 := word_set text1 in
  let words2 := word_set text2 in
  if decide (words1 = ∅ ∨ words2 = ∅) then 0
  else
    let intersection := words1 ∩ words2 in
    let union := words1 ∪ words2 in
    if decide (union = ∅) then 0
    else of_len (size intersection) / of_len (size union).

(** [ContextWeaver._calculate_memory_importance]. *)
Definition _calculate_memory_importance (content : string) (entities : list string) : float :=
  let base_score := 0.5 in
  let entity_boost := py_min (of_len (length entities) * 0.1) 0.3 in
  let length_boost := py_min (of_len (String.length content) / 1000) 0.2 in
  base_score + entity_boost + length_boost.

(** [ORDER BY importance DESC, timestamp DESC]: [a] comes strictly before
    [b]. *)
Definition memory_before (a b : Memory) : bool :=
  (importance b <? importance a)
  || ((importance a =? importance b) && (timestamp b <? timestamp a)).

(** [memories = cursor.fetchall()] for the query of
    [find_related_memories]: the rows of the table, arranged so that no row
    stands behind one it comes strictly before.  SQL leaves the order of
    rows with equal [importance] and [timestamp] open, so this is a
    relation. *)
Definition fetched (table memories : list Memory) : Prop :=
  Permutation table memories
  /\ StronglySorted (fun a b => memory_before b a = false) memories.

(** One element of the list [find_related_memories] returns. *)
Record ScoredMemory := mkScored {
  sm_id : string;
  sm_content : string;
  sm_score : float;
  sm_timestamp : float;
  sm_importance : float
}.

(** [total_score] in the loop of [find_related_memories]; the [int] 0 of
    [entity_boost] is added as the double 0. *)
Definition total_score (nlp : NLPProcessor) (query : string) (m : Memory) : float :=
  let content_similarity := calculate_text_similarity query (content m) in
  let query_entities := map (fun c => fst (fst c)) (extract_entities nlp query) in
  let memory_entities := entities m in
  let entity_boost :=
    match query_entities, memory_entities with
    | _ :: _, _ :: _ => 0.2
    | _, _ => 0
    end in
  content_similarity + entity_boost + importance m * 0.1.

(** [if total_score > 0.1]. *)
Definition relevant (nlp : NLPProcessor) (query : string) (m : Memory) : bool :=
  0.1 <? total_score nlp query m.

Definition scored (nlp : NLPProcessor) (query : string) (m : Memory) : ScoredMemory :=
  mkScored (id m) (content m) (total_score nlp query m) (timestamp m) (importance m).

Definition score_row (nlp : NLPProcessor) (query : string) (m : Memory) : list ScoredMemory :=
  if relevant nlp query m then [scored nlp query m] else [].

(** [sort(key=lambda x: x['score'], reverse=True)]: [a] comes strictly
    before [b]. *)
Definition score_before (a b : ScoredMemory) : bool := sm_score b <? sm_score a.

(** [MemoryRetriever.find_related_memories], from the fetched rows on. *)
Definition find_related_memories (nlp : NLPProcessor) (query : string) (limit : Z)
    (memories : list Memory) : list ScoredMemory :=
  let scored_memories := m ← memories; score_row nlp query m in
  let scored_memories := Sql.stable_sort score_before scored_memories in
  slice_to limit scored_memories.

(** Jaccard overlap of two word sets, 0 when either is empty. *)
Definition jaccard (a b : gset string) : float :=
  if decide (a = ∅ ∨ b = ∅) then 0
  else of_len (size (a ∩ b)) / of_len (size (a ∪ b)).

(** The relevance score as the specification words it. *)
Definition score_formula (nlp : NLPProcessor) (query : string) (m : Memory) : float :=
  jaccard (word_set query) (word_set (content m))
  + (if decide (extract_entities nlp query ≠ [] ∧ entities m ≠ []) then 0.2 else 0)
  + importance m * 0.1.

(** The place of a double in the order of the doubles: sign class, then
    exponent, then mantissa; a NaN has none. *)
Definition sf_key (x : SpecFloat.spec_float) : option (Z * Z * Z) :=
  match x with
  | SpecFloat.S754_nan => None
  | SpecFloat.S754_infinity true => Some (-2, 0, 0)%Z
  | SpecFloat.S754_infinity false => Some (2, 0, 0)%Z
  | SpecFloat.S754_zero _ => Some (0, 0, 0)%Z
  | SpecFloat.S754_finite true m e => Some (-1, - e, - Zpos m)%Z
  | SpecFloat.S754_finite false m e => Some (1, e, Zpos m)%Z
  end.

Definition key_lt (a b : Z * Z * Z) : Prop :=
  let '(c1, e1, m1) := a in
  let '(c2, e2, m2) := b in
  (c1 < c2 \/ (c1 = c2 /\ (e1 < e2 \/ (e1 = e2 /\ m1 < m2))))%Z.

Definition key (x : float) : option (Z * Z * Z) := sf_key (FloatOps.Prim2SF x).

(** The memory [weave_memory] writes for "John works at Google." at time
    [timestamp], and the table after two such calls at times 1 and 2. *)
Definition demo_entities : list string :=
  ["527bd5b5d689"; "0b6cd28f7a8d"; "0cec8207ac31"; "c822c1b63853"].

Definition demo_memory (id : string) (timestamp : float) : Memory :=
  mk id Demo.text demo_entities ["92edc7887879"] timestamp []
    (_calculate_memory_importance Demo.text demo_entities).

Definition demo_table : list Memory :=
  [demo_memory "171e01a9fb9e" 1; demo_memory "7208a402cb5a" 2].

Definition demo_fetched : list Memory :=
  [demo_memory "7208a402cb5a" 2; demo_memory "171e01a9fb9e" 1].

(** A text of fifty words and 205 characters in which the patterns of the
    source find one entity, "research", and no relationship, and the memory
    [weave_memory] writes for it at time 1. *)
Definition boundary_text : string :=
  "research w01 w02 w03 w04 w05 w06 w07 w08 w09 w10 w11 w12 w13 w14 w15 w16 w17 w18 w19 w20 w21 w22 w23 w24 w25 w26 w27 w28 w29 w30 w31 w32 w33 w34 w35 w36 w37 w38 w39 w40 w41 w42 w43 w44 w45 w46 w47 w48 john".

Definition boundary_memory : Memory :=
  mk "d395d88f1e3d" boundary_text ["7412df2b1db8"] [] 1 []
    (_calculate_memory_importance boundary_text ["7412df2b1db8"]).

End F64.

(* ===================================================================== *)
(** ** Further definitions: statistics, row invariants, mentions *)
(* ===================================================================== *)

(** Every character of the text passes the test. *)
(** SQLite refuses a LIKE pattern of more than 50,000 bytes ([LIKE or GLOB
    pattern too complex]); the pattern of the fallback query is the name
    between two [%]. *)
Definition pattern_ok (entity_name : string) : Prop :=
  (Z.of_nat (String.length entity_name) + 2 <= 50000)%Z.

Fixpoint all_chars (p : ascii -> bool) (s : string) : bool :=
  match s with
  | EmptyString => true
  | String c r => p c && all_chars p r
  end.

(** A digit of lower-case hexadecimal notation. *)
Definition is_hex_digit (c : ascii) : bool :=
  let n := nat_of_ascii c in
  ((Nat.leb 48 n && Nat.leb n 57) || (Nat.leb 97 n && Nat.leb n 102))%bool.

(** The entity id a candidate [(name, type, context)] is stored under. *)
Definition candidate_id (cand : string * string * string) : string :=
  _generate_id (Text.lower (fst (fst cand))).

(** The candidates of one fragment that are stored under [entity_id]. *)
Definition mentions (entity_id : string) (cands : list (string * string * string))
    : list (string * string * string) :=
  filter (fun c => candidate_id c = entity_id) cands.

(** [score += 0.1], [n] times over, one addition after the other as
    [weave_memory] performs them (in floating point the sum of [n]
    additions is not [0.1 * n] added once). *)
Definition add_tenths (n : nat) (score : Q) : Q :=
  Nat.iter n (fun s => s + 0.1) score.

(** The row invariants of the three tables. *)
Definition entity_ok (e : Entity.t) : Prop :=
  Entity.id e = _generate_id (Text.lower (Entity.name e))
  /\ (1 <= Entity.access_count e)%Z
  /\ Entity.importance_score e = add_tenths (Z.to_nat (Entity.access_count e - 1)) 0.5
  /\ exists context, Entity.properties e = [("contexts", [context])].

Definition relationship_ok (r : Relationship.t) : Prop :=
  Relationship.id r
  = _generate_id (Relationship.source_id r +:+ "_" +:+ Relationship.target_id r
                  +:+ "_" +:+ Relationship.relation_type r)
  /\ Relationship.created_at r = Relationship.last_reinforced r
  /\ Relationship.strength r = 0.7.

Definition memory_ok (float_str : Q -> string) (m : Memory.t) : Prop :=
  Memory.id m = _generate_id (Memory.content m +:+ float_str (Memory.timestamp m))
  /\ Memory.importance m = _calculate_memory_importance (Memory.content m) (Memory.entities m)
  /\ 0.5 <= Memory.importance m <= 1.

Definition store_ok (float_str : Q -> string) (st : Store) : Prop :=
  Forall entity_ok (entities st)
  /\ Forall relationship_ok (relationships st)
  /\ Forall (memory_ok float_str) (memories st)
  /\ NoDup (Entity.id <$> entities st)
  /\ NoDup (Relationship.id <$> relationships st)
  /\ NoDup (Memory.id <$> memories st).

(** [e'] is [e] after [n] more mentions at time [now]: same id, name,
    type, properties and creation time, [n] more accesses, the importance
    raised by 0.1 [n] times over, and [last_accessed] moved to [now] if
    [n > 0]. *)
Definition reinforced_by (e e' : Entity.t) (n : nat) (now : Q) : Prop :=
  Entity.id e' = Entity.id e /\ Entity.name e' = Entity.name e
  /\ Entity.type e' = Entity.type e /\ Entity.properties e' = Entity.properties e
  /\ Entity.created_at e' = Entity.created_at e
  /\ Entity.access_count e' = (Entity.access_count e + Z.of_nat n)%Z
  /\ Entity.importance_score e' = add_tenths n (Entity.importance_score e)
  /\ Entity.last_accessed e' = match n with O => Entity.last_accessed e | S _ => now end.

(** [ContextualMemorySystem.get_system_stats]: the three [COUNT( * )]
    queries and the path of the database the system was opened on. *)
Record Stats := mkStats {
  stat_entities : Z;
  stat_relationships : Z;
  stat_memories : Z;
  storage_path : string
}.

Definition get_system_stats (db_path : string) : DB Stats := fun st =>
  (mkStats (Z.of_nat (length (entities st)))
     (Z.of_nat (length (relationships st)))
     (Z.of_nat (length (memories st)))
     db_path, st).

(* ===================================================================== *)
(** * Properties *)
(* ===================================================================== *)

(** ** Digests and text primitives on known inputs *)

Example md5_empty : MD5.hexdigest "" = "d41d8cd98f00b204e9800998ecf8427e".
Proof. vm_compute. reflexivity. Qed.

Example md5_abc : MD5.hexdigest "abc" = "900150983cd24fb0d6963f7d28e17f72".
Proof. vm_compute. reflexivity. Qed.

Example md5_long :
  MD5.hexdigest
    "12345678901234567890123456789012345678901234567890123456789012345678901234567890"
  = "57edf4a22be3c955ac49da2e2107b67a".
Proof. vm_compute. reflexivity. Qed.

Example generate_id_john : _generate_id (Text.lower "John") = "527bd5b5d689".
Proof. vm_compute. reflexivity. Qed.

Example split_example :
  Text.split (Text.lower "  Tell me	about John ") = ["tell"; "me"; "about"; "john"].
Proof. vm_compute. reflexivity. Qed.

Example decimal_example : Text.decimal 1730678400 = "1730678400" /\ Text.decimal 0 = "0".
Proof. vm_compute. split; reflexivity. Qed.

(** ** Stable sorting *)

Section SortingFacts.
Context {A : Type} (before : A -> A -> bool).

Lemma insert_sorted_perm (x : A) (l : list A) :
  Permutation (Sql.insert_sorted before x l) (x :: l).
Proof.
  induction l as [|y r IH]; simpl; [reflexivity|].
  destruct (before y x); [|reflexivity].
  rewrite IH. apply perm_swap.
Qed.

Lemma stable_sort_perm (l : list A) : Permutation (Sql.stable_sort before l) l.
Proof.
  induction l as [|x r IH]; simpl; [reflexivity|].
  rewrite insert_sorted_perm. now constructor.
Qed.

Lemma stable_sort_length (l : list A) : length (Sql.stable_sort before l) = length l.
Proof. apply Permutation_length, stable_sort_perm. Qed.

Hypothesis before_asym : forall a b, before a b = true -> before b a = false.
Hypothesis not_after_trans :
  forall a b c, Sql.not_after before a b -> Sql.not_after before b c -> Sql.not_after before a c.

Lemma insert_sorted_sorted (x : A) (l : list A) :
  StronglySorted (Sql.not_after before) l -> StronglySorted (Sql.not_after before) (Sql.insert_sorted before x l).
Proof.
  induction 1 as [|y r Hr IH Hy]; simpl.
  - repeat constructor.
  - destruct (before y x) eqn:E.
    + constructor; [exact IH|].
      rewrite Forall_forall. intros z Hz.
      rewrite insert_sorted_perm in Hz.
      apply elem_of_cons in Hz as [->|Hz].
      * now apply before_asym.
      * rewrite Forall_forall in Hy. now apply Hy.
    + constructor; [now constructor|].
      constructor; [exact E|].
      rewrite Forall_forall in *. intros z Hz.
      eapply not_after_trans; [exact E|]. now apply Hy.
Qed.

Lemma stable_sort_sorted (l : list A) : StronglySorted (Sql.not_after before) (Sql.stable_sort before l).
Proof.
  induction l as [|x r IH]; simpl; [constructor|].
  now apply insert_sorted_sorted.
Qed.
End SortingFacts.

Section StabilityFacts.
Context {A : Type} (before : A -> A -> bool) (cls : A -> bool).

(** Inside the class [cls] no element comes strictly before another. *)
Hypothesis cls_tied : forall a b, cls a = true -> cls b = true -> before a b = false.

Lemma insert_sorted_class (x : A) (l : list A) :
  List.filter cls (Sql.insert_sorted before x l) = List.filter cls (x :: l).
Proof.
  induction l as [|y r IH]; [reflexivity|].
  cbn [Sql.insert_sorted]. destruct (before y x) eqn:E; [|reflexivity].
  cbn [List.filter] in *. rewrite IH.
  destruct (cls x) eqn:Ex, (cls y) eqn:Ey; try reflexivity.
  rewrite (cls_tied y x Ey Ex) in E. discriminate.
Qed.

Lemma stable_sort_class (l : list A) :
  List.filter cls (Sql.stable_sort before l) = List.filter cls l.
Proof.
  induction l as [|x r IH]; [reflexivity|].
  cbn [Sql.stable_sort]. rewrite insert_sorted_class.
  cbn [List.filter]. now rewrite IH.
Qed.
End StabilityFacts.

(** A sort whose input is already tied everywhere changes nothing. *)
Lemma stable_sort_tied {A} (before : A -> A -> bool) (l : list A) :
  (forall a b, In a l -> In b l -> before a b = false) ->
  Sql.stable_sort before l = l.
Proof.
  induction l as [|x r IH]; intros H; [reflexivity|].
  cbn [Sql.stable_sort]. rewrite IH by (intros; apply H; now right).
  destruct r as [|y r']; [reflexivity|].
  cbn [Sql.insert_sorted]. rewrite H; [reflexivity| right; now left | now left].
Qed.

(** ** Rational comparisons *)

Lemma Qgtb_true (a b : Q) : Sql.Qgtb a b = true <-> b < a.
Proof.
  unfold Sql.Qgtb. rewrite negb_true_iff.
  split; intros H.
  - apply Qnot_le_lt. intros Hle. apply Qle_bool_iff in Hle. congruence.
  - destruct (Qle_bool a b) eqn:E; [|reflexivity].
    apply Qle_bool_iff in E. exfalso. exact (Qlt_not_le _ _ H E).
Qed.

Lemma Qgtb_false (a b : Q) : Sql.Qgtb a b = false <-> a <= b.
Proof.
  unfold Sql.Qgtb. rewrite negb_false_iff. apply Qle_bool_iff.
Qed.

(** ** Memory importance *)

Lemma entity_cap (z : Z) : 0.3 <= inject_Z z * 0.1 <-> (3 <= z)%Z.
Proof. unfold Qle, Qmult, inject_Z; cbn. lia. Qed.

Lemma length_cap (z : Z) : 0.2 <= inject_Z z / 1000 <-> (200 <= z)%Z.
Proof. unfold Qle, Qdiv, Qmult, Qinv, inject_Z; cbn. lia. Qed.

Lemma importance_formula_bounds (n len : nat) :
  0.5 <= importance_formula n len <= 1.
Proof.
  unfold importance_formula.
  assert (Hn : 0 <= inject_Z (Z.of_nat n)) by (unfold Qle, inject_Z; cbn; lia).
  assert (Hl : 0 <= inject_Z (Z.of_nat len) / 1000)
    by (unfold Qle, Qdiv, Qmult, Qinv, inject_Z; cbn; lia).
  set (t := inject_Z (Z.of_nat len) / 1000) in *.
  destruct (Q.min_spec (0.1 * inject_Z (Z.of_nat n)) 0.3) as [[H1 ->]|[H1 ->]];
  destruct (Q.min_spec t 0.2) as [[H2 ->]|[H2 ->]];
  lra.
Qed.

(** C3. The importance of a memory is
    [0.5 + min(0.1 * entityCount, 0.3) + min(contentLength / 1000, 0.2)];
    it lies in [[0.5, 1.0]]; the entity term sits at its cap 0.3 exactly
    from three entity ids on and the length term at its cap 0.2 exactly
    from 200 characters on, so the ceiling 1.0 is reached exactly when both
    hold. *)
Theorem calculate_memory_importance_spec (content : string) (entities : list string) :
  let entityCount := length entities in
  let contentLength := String.length content in
  let importance := _calculate_memory_importance content entities in
  importance == importance_formula entityCount contentLength
  /\ 0.5 <= importance <= 1
  /\ (Qmin (0.1 * inject_Z (Z.of_nat entityCount)) 0.3 == 0.3 <-> (3 <= entityCount)%nat)
  /\ (Qmin (inject_Z (Z.of_nat contentLength) / 1000) 0.2 == 0.2 <-> (200 <= contentLength)%nat)
  /\ (importance == 1 <-> (3 <= entityCount)%nat /\ (200 <= contentLength)%nat).
Proof.
  intros n len imp.
  assert (E : imp == importance_formula n len).
  { subst imp. unfold _calculate_memory_importance, importance_formula.
    fold n len. now rewrite (Qmult_comm 0.1). }
  assert (C1 : Qmin (0.1 * inject_Z (Z.of_nat n)) 0.3 == 0.3 <-> (3 <= n)%nat).
  { rewrite Q.min_r_iff, Qmult_comm, entity_cap. lia. }
  assert (C2 : Qmin (inject_Z (Z.of_nat len) / 1000) 0.2 == 0.2 <-> (200 <= len)%nat).
  { rewrite Q.min_r_iff, length_cap. lia. }
  split; [exact E|]. split; [rewrite E; apply importance_formula_bounds|].
  split; [exact C1|]. split; [exact C2|].
  rewrite E, <- C1, <- C2. unfold importance_formula.
  pose proof (Q.le_min_r (0.1 * inject_Z (Z.of_nat n)) 0.3).
  pose proof (Q.le_min_r (inject_Z (Z.of_nat len) / 1000) 0.2).
  split; [intros; split; lra | intros [-> ->]; reflexivity].
Qed.

Set Warnings "-inexact-float".

(** The same boundary points in binary64, the arithmetic Python uses:
    [3 * 0.1] rounds above [0.3], [200 / 1000] is the double [0.2], and the
    capped sum is exactly [1.0]. *)
Example importance_binary64 :
  (FloatBoundary.entity_boost 2 = 0.2
   /\ FloatBoundary.entity_boost 3 = 0.3
   /\ FloatBoundary.entity_boost 4000 = 0.3
   /\ FloatBoundary.length_boost 199 = 0.199
   /\ FloatBoundary.length_boost 200 = 0.2
   /\ FloatBoundary.length_boost 100000 = 0.2
   /\ FloatBoundary.importance 0 0 = 0.5
   /\ FloatBoundary.importance 3 200 = 1
   /\ FloatBoundary.importance 4000 100000 = 1)%float.
Proof. vm_compute. repeat split. Qed.

Arguments _generate_id : simpl never.

Ltac db_unfold :=
  unfold mbind, mret, DB_bind, DB_ret, bind, ret in *.

(** ** Text *)

Lemma length_append (a b : string) :
  String.length (a ++ b) = (String.length a + String.length b)%nat.
Proof. induction a as [|c a IH]; simpl; [reflexivity | now rewrite IH]. Qed.

Lemma prefixed_differs (prefix s : string) :
  prefix <> "" -> String.eqb (prefix ++ s) s = false.
Proof.
  intros Hp. apply String.eqb_neq. intros E.
  apply (f_equal String.length) in E. rewrite length_append in E.
  destruct prefix; [congruence | cbn in E; lia].
Qed.

(** ** The [DB] monad *)

Lemma for_each_cons {A B} (body : A -> DB B) (a : A) (r : list A) (st : Store) :
  for_each body (a :: r) st =
  (fst (body a st) :: fst (for_each body r (snd (body a st))),
   snd (for_each body r (snd (body a st)))).
Proof.
  cbn [for_each]. db_unfold.
  destruct (body a st) as [b st1]. cbn [fst snd].
  destruct (for_each body r st1) as [bs st2]. reflexivity.
Qed.

(** ** One call of [get_entity_network] *)

Lemma get_entity_network_fuel_step (fuel : nat) (entity_name : string) (depth : Z) (st : Store) :
  get_entity_network_fuel (S fuel) entity_name depth st =
  match fallback_step entity_name st with
  | Some match_name => get_entity_network_fuel fuel match_name depth st
  | None =>
      (Some (network_of entity_name
               (fst (Sql.select_network (_generate_id (Text.lower entity_name)) st))), st)
  end.
Proof.
  cbn [get_entity_network_fuel]. unfold fallback_step. db_unfold.
  unfold Sql.select_network, Sql.select_entities_like. cbn [fst snd].
  destruct (Sql.stable_sort _ _) as [|row rows]; [|reflexivity].
  destruct (map _ _) as [|[m ty] ms]; [reflexivity|].
  destruct (negb _); reflexivity.
Qed.

Lemma get_entity_network_fuel_readonly (fuel : nat) (entity_name : string) (depth : Z) (st : Store) :
  snd (get_entity_network_fuel fuel entity_name depth st) = st.
Proof.
  revert entity_name. induction fuel as [|fuel IH]; intros entity_name; [reflexivity|].
  rewrite get_entity_network_fuel_step.
  destruct (fallback_step entity_name st); [apply IH | reflexivity].
Qed.

(** C10. [find_related_memories] and [get_entity_network] return the store
    they were given: no entity, relationship or memory row changes, and the
    entity extraction run on the query text writes nothing. *)
Theorem queries_are_read_only (nlp : NLPProcessor) (st : Store) :
  (forall query limit, snd (find_related_memories nlp query limit st) = st)
  /\ (forall entity_name depth, snd (get_entity_network entity_name depth st) = st).
Proof.
  split.
  - intros query limit. reflexivity.
  - intros entity_name depth. apply get_entity_network_fuel_readonly.
Qed.

Lemma add_memory_unfold (nlp : NLPProcessor) (float_str : Q -> string)
    (content : string) (context_tags : option (list string)) (now : Q) (st : Store) :
  add_memory nlp float_str content context_tags now st
  = ("Memory stored with ID: "
       ++ Memory.id (fst (weave_memory nlp float_str content context_tags now st)),
     snd (weave_memory nlp float_str content context_tags now st)).
Proof.
  unfold add_memory. db_unfold.
  destruct (weave_memory _ _ _ _ _ _); reflexivity.
Qed.

Lemma weave_memory_id (nlp : NLPProcessor) (float_str : Q -> string)
    (content : string) (context_tags : option (list string)) (now : Q) (st : Store) :
  Memory.id (fst (weave_memory nlp float_str content context_tags now st))
  = _generate_id (content ++ float_str now).
Proof.
  unfold weave_memory. db_unfold.
  destruct (for_each (weave_entity now) _ st) as [es st1].
  destruct (for_each (weave_relationship now) _ st1) as [rs st2].
  reflexivity.
Qed.

(** C7 (as amended). [add_memory] returns the message
    ["Memory stored with ID: "] followed by the id of the memory that
    [weave_memory] built (so never the bare id), and leaves the store as
    [weave_memory] left it. *)
Theorem add_memory_returns_message (nlp : NLPProcessor) (float_str : Q -> string)
    (content : string) (context_tags : option (list string)) (now : Q) (st : Store) :
  let woven := weave_memory nlp float_str content context_tags now st in
  fst (add_memory nlp float_str content context_tags now st)
    = "Memory stored with ID: " ++ Memory.id (fst woven)
  /\ snd (add_memory nlp float_str content context_tags now st) = snd woven
  /\ Memory.id (fst woven) = _generate_id (content ++ float_str now)
  /\ String.eqb (fst (add_memory nlp float_str content context_tags now st))
                (Memory.id (fst woven)) = false.
Proof.
  intros woven. subst woven. rewrite add_memory_unfold. cbn [fst snd].
  repeat split.
  - apply weave_memory_id.
  - now apply prefixed_differs.
Qed.

(** C7, as stated, fails: on a fresh database, [add_memory("")] at time 0
    returns the message, while the memory's id is the bare digest prefix. *)
Example add_memory_not_the_id :
  fst (add_memory Demo.nlp Demo.float_str "" None 0 empty_store)
    = "Memory stored with ID: 30565a8911a6"
  /\ Memory.id (fst (weave_memory Demo.nlp Demo.float_str "" None 0 empty_store))
    = "30565a8911a6"
  /\ String.eqb (fst (add_memory Demo.nlp Demo.float_str "" None 0 empty_store))
       (Memory.id (fst (weave_memory Demo.nlp Demo.float_str "" None 0 empty_store)))
     = false.
Proof. vm_compute. repeat split. Qed.


(** ** [INSERT OR REPLACE] *)

Local Open Scope list_scope.

Section Replace.
Context {A : Type} (key : A -> string).

Lemma replace_keeps_one (x : A) (l : list A) :
  filter (fun y => key y = key x) (filter (fun y => key y ≠ key x) l ++ [x]) = [x].
Proof.
  rewrite filter_app.
  assert (E : filter (fun y => key y = key x) (filter (fun y => key y ≠ key x) l) = []).
  { induction l as [|y r IH]; [reflexivity|].
    rewrite (filter_cons (fun y => key y ≠ key x)). case_decide; [|exact IH].
    rewrite filter_cons. case_decide; [contradiction | exact IH]. }
  rewrite E, filter_cons. case_decide; [reflexivity | contradiction].
Qed.

Lemma replace_keeps_others (x : A) (k : string) (l : list A) :
  k ≠ key x ->
  filter (fun y => key y = k) (filter (fun y => key y ≠ key x) l ++ [x])
  = filter (fun y => key y = k) l.
Proof.
  intros Hk. rewrite filter_app, (filter_cons _ x), decide_False by congruence.
  rewrite filter_nil, app_nil_r.
  induction l as [|y r IH]; [reflexivity|].
  rewrite (filter_cons (fun y => key y ≠ key x)), (filter_cons (fun y => key y = k) y).
  repeat case_decide; rewrite ?filter_cons_True, ?filter_cons_False by congruence;
    congruence.
Qed.

Lemma replace_rest (x : A) (l : list A) :
  filter (fun y => key y ≠ key x) (filter (fun y => key y ≠ key x) l ++ [x])
  = filter (fun y => key y ≠ key x) l.
Proof.
  rewrite filter_app, (filter_cons _ x), decide_False by (intros H; now apply H).
  rewrite filter_nil, app_nil_r.
  induction l as [|y r IH]; [reflexivity|].
  rewrite (filter_cons _ y). case_decide; [|exact IH].
  rewrite filter_cons_True by assumption. now rewrite IH.
Qed.

Lemma replace_NoDup (x : A) (l : list A) :
  NoDup (key <$> l) -> NoDup (key <$> (filter (fun y => key y ≠ key x) l ++ [x])).
Proof.
  intros Hl. rewrite fmap_app. apply NoDup_app. split; [|split].
  - induction l as [|y r IH]; [constructor|].
    apply NoDup_cons in Hl as [Hy Hr].
    rewrite filter_cons. case_decide; [|now apply IH].
    cbn. apply NoDup_cons. split; [|now apply IH].
    intros Hin. apply Hy. apply list_elem_of_fmap in Hin as (z & -> & Hz).
    apply list_elem_of_filter in Hz as [_ Hz].
    apply list_elem_of_fmap. eauto.
  - intros k Hk Hx. apply list_elem_of_singleton in Hx as ->.
    apply list_elem_of_fmap in Hk as (z & Hz1 & Hz).
    apply list_elem_of_filter in Hz as [Hne _]. congruence.
  - cbn. apply NoDup_singleton.
Qed.
End Replace.

Lemma head_filter_Some {A} (P : A -> Prop) `{!forall x, Decision (P x)} (l : list A) (x : A) :
  head (filter P l) = Some x -> x ∈ l /\ P x.
Proof.
  intros Hh. assert (Hx : x ∈ filter P l).
  { destruct (filter P l); [discriminate|]. injection Hh as ->. left. }
  apply list_elem_of_filter in Hx as [? ?]. now split.
Qed.

Lemma head_filter_None {A} (P : A -> Prop) `{!forall x, Decision (P x)} (l : list A) :
  head (filter P l) = None -> forall x, x ∈ l -> ~ P x.
Proof.
  intros Hh x Hx HP.
  assert (Hin : x ∈ filter P l) by (apply list_elem_of_filter; now split).
  destruct (filter P l); [inversion Hin | discriminate].
Qed.

(** ** Entity upsert *)

Lemma weave_entity_store (now : Q) (entity_name entity_type entity_context : string) (st : Store) :
  let entity_id := _generate_id (Text.lower entity_name) in
  let e' := match fst (get_entity entity_id st) with
            | Some e => reinforced e now
            | None => Entity.mk entity_id entity_name entity_type
                        [("contexts", [entity_context])] now now 1%Z 0.5
            end in
  weave_entity now (entity_name, entity_type, entity_context) st
  = (entity_id,
     mkStore (filter (fun x => Entity.id x ≠ Entity.id e') (entities st) ++ [e'])
       (relationships st) (memories st))
  /\ Entity.id e' = entity_id.
Proof.
  intros entity_id e'. subst e'. unfold weave_entity, get_entity, store_entity.
  fold entity_id. db_unfold. unfold Sql.select_entity, Sql.replace_entity. cbn [fst snd].
  destruct (head _) as [e|] eqn:E; cbn [fst snd]; split; try reflexivity.
  apply head_filter_Some in E as [_ E]. exact E.
Qed.

(** ** Properties kept by every write *)

Lemma for_each_preserves {A B} (P : Store -> Prop) (body : A -> DB B) (l : list A) :
  (forall a st, P st -> P (snd (body a st))) ->
  forall st, P st -> P (snd (for_each body l st)).
Proof.
  intros Hbody. induction l as [|a r IH]; intros st Hst; [exact Hst|].
  rewrite for_each_cons. cbn [snd]. apply IH, Hbody, Hst.
Qed.

Section Preservation.
Variable nlp : NLPProcessor.
Variable float_str : Q -> string.
Variable P : Store -> Prop.
Hypothesis P_entity : forall now cand st, P st -> P (snd (weave_entity now cand st)).
Hypothesis P_relationship :
  forall now cand st, P st -> P (snd (weave_relationship now cand st)).
Hypothesis P_memory : forall m st, P st -> P (snd (_store_memory m st)).

Lemma weave_memory_preserves (content : string) (tags : option (list string))
    (now : Q) (st : Store) :
  P st -> P (snd (weave_memory nlp float_str content tags now st)).
Proof.
  intros Hst. unfold weave_memory. db_unfold.
  pose proof (for_each_preserves P (weave_entity now)
                (extract_entities nlp content) (P_entity now) st Hst) as H1.
  destruct (for_each (weave_entity now) _ st) as [es st1]. cbn [snd] in H1.
  match goal with |- context [for_each (weave_relationship now) ?l st1] =>
    pose proof (for_each_preserves P (weave_relationship now) l
                  (P_relationship now) st1 H1) as H2;
    destruct (for_each (weave_relationship now) l st1) as [rs st2]
  end.
  cbn [snd] in H2.
  match goal with |- context [_store_memory ?m st2] =>
    pose proof (P_memory m st2 H2) as H3; destruct (_store_memory m st2) as [u st3]
  end.
  exact H3.
Qed.

Lemma run_call_preserves (c : Call) (st : Store) :
  P st -> P (run_call nlp float_str c st).
Proof.
  intros Hst. destruct c as [content tags now|query limit|entity_name]; cbn [run_call].
  - rewrite add_memory_unfold. cbn [snd]. now apply weave_memory_preserves.
  - exact Hst.
  - unfold explore_entity, get_entity_network.
    now rewrite get_entity_network_fuel_readonly.
Qed.

Lemma run_calls_preserves (calls : list Call) :
  P empty_store -> P (run_calls nlp float_str calls).
Proof.
  unfold run_calls. generalize empty_store.
  induction calls as [|c cs IH]; intros st Hst; [exact Hst|].
  cbn [foldl]. apply IH. now apply run_call_preserves.
Qed.
End Preservation.

(** C1. One mention of a name upserts the entity row keyed by
    [entityId(lower-cased name)]: an existing row keeps its id, name, type,
    properties and creation time and gets [last_accessed = now],
    [access_count + 1] and [importance_score + 0.1]; otherwise a row is
    created with [access_count = 1], [importance_score = 0.5],
    [properties.contexts = [context]] and [created_at = last_accessed = now].
    Afterwards exactly one row carries that id, every other row is as
    before, and ids that were unique stay unique; over any sequence of
    calls on a fresh database no id ever occurs twice. *)
Theorem weave_entity_upsert (nlp : NLPProcessor) (float_str : Q -> string)
    (now : Q) (entity_name entity_type entity_context : string) (st : Store) :
  let entity_id := _generate_id (Text.lower entity_name) in
  let result := weave_entity now (entity_name, entity_type, entity_context) st in
  let stored := filter (fun e => Entity.id e = entity_id) (entities (snd result)) in
  fst result = entity_id
  /\ (is_Some (fst (get_entity entity_id st))
      <-> exists e, e ∈ entities st /\ Entity.id e = entity_id)
  /\ (forall e, fst (get_entity entity_id st) = Some e ->
        stored = [Entity.mk entity_id (Entity.name e) (Entity.type e)
                    (Entity.properties e) (Entity.created_at e)
                    now (Entity.access_count e + 1)%Z (Entity.importance_score e + 0.1)])
  /\ (fst (get_entity entity_id st) = None ->
        stored = [Entity.mk entity_id entity_name entity_type
                    [("contexts", [entity_context])] now now 1%Z 0.5])
  /\ filter (fun e => Entity.id e ≠ entity_id) (entities (snd result))
     = filter (fun e => Entity.id e ≠ entity_id) (entities st)
  /\ relationships (snd result) = relationships st
  /\ memories (snd result) = memories st
  /\ (NoDup (Entity.id <$> entities st) -> NoDup (Entity.id <$> entities (snd result)))
  /\ (forall calls, NoDup (Entity.id <$> entities (run_calls nlp float_str calls))).
Proof.
  intros entity_id result stored.
  destruct (weave_entity_store now entity_name entity_type entity_context st) as [E Eid].
  fold entity_id in E, Eid.
  set (e' := match fst (get_entity entity_id st) with
             | Some e => reinforced e now
             | None => Entity.mk entity_id entity_name entity_type
                         [("contexts", [entity_context])] now now 1%Z 0.5
             end) in *.
  assert (Estored : stored = [e']).
  { subst stored result. rewrite E. cbn [snd entities]. rewrite <- Eid.
    apply (replace_keeps_one Entity.id). }
  subst result. rewrite E. cbn [fst snd entities relationships memories].
  split; [reflexivity|]. split; [|split; [|split; [|split; [|split; [|split; [|split]]]]]].
  - unfold get_entity, Sql.select_entity. cbn [fst]. split.
    + intros [e He]. apply head_filter_Some in He as [? ?]. eauto.
    + intros (e & He & Hid).
      destruct (head _) as [x|] eqn:Hx; [eauto|].
      exfalso. exact (head_filter_None _ _ Hx e He Hid).
  - intros e He. rewrite Estored. subst e'. rewrite He. unfold reinforced.
    unfold get_entity, Sql.select_entity in He. cbn [fst] in He.
    apply head_filter_Some in He as [_ ->]. reflexivity.
  - intros He. rewrite Estored. subst e'. now rewrite He.
  - rewrite <- Eid. apply (replace_rest Entity.id).
  - reflexivity.
  - reflexivity.
  - apply (replace_NoDup Entity.id).
  - intros calls. apply run_calls_preserves.
    + intros t [[n ty] c] s Hs.
      destruct (weave_entity_store t n ty c s) as [E' _]. rewrite E'. cbn [snd entities].
      now apply (replace_NoDup Entity.id).
    + intros t c s Hs. exact Hs.
    + intros m s Hs. exact Hs.
    + constructor.
Qed.

(** ** Relationship upsert *)

Lemma weave_relationship_store (now : Q) (cand : string * string * string * string) (st : Store) :
  weave_relationship now cand st
  = (Relationship.id (relationship_of now cand),
     mkStore (entities st)
       (filter (fun x => Relationship.id x ≠ Relationship.id (relationship_of now cand))
               (relationships st) ++ [relationship_of now cand])
       (memories st)).
Proof. reflexivity. Qed.

(** A repeated upsert of one [(source, target, relation_type)] triple
    leaves one row under the triple's id, and that row is the one built by
    the later call: every column, [created_at] included, is overwritten. *)
Lemma weave_relationship_twice (st : Store) (t1 t2 : Q)
    (source target relation_type context1 context2 : string) :
  let first := relationship_of t1 (source, target, relation_type, context1) in
  let st2 := snd (weave_relationship t2 (source, target, relation_type, context2)
                    (snd (weave_relationship t1 (source, target, relation_type, context1) st))) in
  filter (fun r => Relationship.id r = Relationship.id first) (relationships st2)
  = [Relationship.mk (Relationship.id first) (Relationship.source_id first)
       (Relationship.target_id first) relation_type 0.7 context2 t2 t2].
Proof.
  intros first st2. subst first st2. rewrite !weave_relationship_store.
  cbn [snd relationships].
  apply (replace_keeps_one Relationship.id
           (relationship_of t2 (source, target, relation_type, context2))).
Qed.

(** C2, evaluated: weaving "John works at Google." at time 1 and again at
    time 2 leaves one WORKS_AT row; the repeat refreshed [context] and
    [last_reinforced] and kept [strength], but [created_at] is 2, not the
    time 1 at which the relationship was first created. *)
Theorem reweave_overwrites_created_at :
  relationships Demo.store1
  = [Relationship.mk "92edc7887879" "527bd5b5d689" "c822c1b63853" "WORKS_AT"
       0.7 Demo.text 1 1]
  /\ relationships Demo.store2
  = [Relationship.mk "92edc7887879" "527bd5b5d689" "c822c1b63853" "WORKS_AT"
       0.7 Demo.text 2 2].
Proof. vm_compute. split; reflexivity. Qed.

(** The same two weaves seen from the entity table: each of the four
    entities is still one row, created at time 1, last accessed at time 2,
    with two accesses and importance 0.5 + 0.1. *)
Example reweave_reinforces_entities :
  map (fun e => (Entity.name e, Entity.created_at e, Entity.last_accessed e,
                 Entity.access_count e, Qeq_bool (Entity.importance_score e) 0.6))
      (entities Demo.store2)
  = [("John", 1, 2, 2%Z, true); ("John works", 1, 2, 2%Z, true);
     ("at Google", 1, 2, 2%Z, true); ("Google", 1, 2, 2%Z, true)].
Proof. vm_compute. reflexivity. Qed.

(** ** Constant strength *)

Lemma join_rows_rel (es : list Entity.t) (r : Relationship.t) (row : Sql.NetworkRow) :
  row ∈ Sql.join_rows es r ->
  Sql.rel row = r
  /\ Sql.source_name row ∈ Sql.entity_names_of (Relationship.source_id r) es
  /\ Sql.target_name row ∈ Sql.entity_names_of (Relationship.target_id r) es.
Proof.
  unfold Sql.join_rows. intros H.
  apply list_elem_of_bind in H as (s & H & Hs).
  apply list_elem_of_bind in H as (t & H & Ht).
  apply list_elem_of_singleton in H as ->. auto.
Qed.

(** C9. After any sequence of calls on a fresh database every relationship
    row has strength 0.7, so no stored relationship is strictly stronger
    than another: [ORDER BY r.strength DESC] never puts one relationship
    before another on account of its strength. *)
Theorem relationship_strength_constant (nlp : NLPProcessor) (float_str : Q -> string)
    (calls : list Call) :
  let st := run_calls nlp float_str calls in
  Forall (fun r => Relationship.strength r = 0.7) (relationships st)
  /\ Forall (fun a => Forall (fun b =>
        Sql.Qgtb (Relationship.strength a) (Relationship.strength b) = false)
        (relationships st)) (relationships st).
Proof.
  intros st.
  assert (H : Forall (fun r => Relationship.strength r = 0.7) (relationships st)).
  { subst st. apply (run_calls_preserves nlp float_str
      (fun st => Forall (fun r => Relationship.strength r = 0.7) (relationships st))).
    - intros t [[n ty] c] s Hs.
      destruct (weave_entity_store t n ty c s) as [E _]. rewrite E. exact Hs.
    - intros t [[[a b] ty] c] s Hs. rewrite weave_relationship_store. cbn [snd relationships].
      apply Forall_app. split; [|repeat constructor].
      rewrite Forall_forall in *. intros r Hr.
      apply list_elem_of_filter in Hr as [_ Hr]. now apply Hs.
    - intros m s Hs. exact Hs.
    - constructor. }
  split; [exact H|].
  rewrite Forall_forall in H. apply Forall_forall. intros a Ha.
  apply Forall_forall. intros b Hb. now rewrite (H a Ha), (H b Hb).
Qed.

(** ** Relevance ranking *)

Lemma calculate_text_similarity_jaccard (text1 text2 : string) :
  calculate_text_similarity text1 text2 = jaccard (word_set text1) (word_set text2).
Proof.
  unfold calculate_text_similarity, jaccard.
  destruct (decide (word_set text1 = ∅ ∨ word_set text2 = ∅)) as [H|H]; [reflexivity|].
  destruct (decide (word_set text1 ∪ word_set text2 = ∅)) as [E|E]; [|reflexivity].
  exfalso. apply H. left. apply empty_union_L in E. tauto.
Qed.

Lemma total_score_formula (nlp : NLPProcessor) (query : string) (m : Memory.t) :
  total_score nlp query m = score_formula nlp query m.
Proof.
  unfold total_score, score_formula. rewrite calculate_text_similarity_jaccard.
  f_equal. f_equal.
  destruct (extract_entities nlp query) as [|c cs], (Memory.entities m) as [|i ids];
    cbn [map]; case_decide as H; try reflexivity.
  - destruct H as [H _]. now contradiction H.
  - destruct H as [H _]. now contradiction H.
  - destruct H as [_ H]. now contradiction H.
  - exfalso. apply H. split; discriminate.
Qed.

Lemma score_rows (nlp : NLPProcessor) (query : string) (l : list Memory.t) :
  (m ← l; score_row nlp query m) = scored nlp query <$> filter (relevant nlp query) l.
Proof.
  induction l as [|m r IH]; [reflexivity|].
  cbn [mbind list_bind]. rewrite IH, filter_cons. unfold score_row.
  destruct (Sql.Qgtb _ _) eqn:E.
  - apply Qgtb_true in E. rewrite decide_True by exact E. reflexivity.
  - apply Qgtb_false in E. rewrite decide_False; [reflexivity|].
    unfold relevant. intros H. exact (Qlt_not_le _ _ H E).
Qed.

Lemma slice_to_nat {A} (limit : nat) (l : list A) :
  slice_to (Z.of_nat limit) l = take limit l.
Proof.
  unfold slice_to. destruct (Z.leb_spec 0 (Z.of_nat limit)); [|lia].
  now rewrite Nat2Z.id.
Qed.

Lemma find_related_memories_unfold (nlp : NLPProcessor) (query : string) (limit : Z) (st : Store) :
  fst (find_related_memories nlp query limit st)
  = slice_to limit
      (Sql.stable_sort score_before
         (scored nlp query <$> filter (relevant nlp query) (fst (Sql.select_memories st)))).
Proof.
  unfold find_related_memories. db_unfold. cbn [fst Sql.select_memories].
  now rewrite score_rows.
Qed.

Lemma score_before_sorted (l : list ScoredMemory) :
  StronglySorted (fun a b => sm_score b <= sm_score a) (Sql.stable_sort score_before l).
Proof.
  assert (H : StronglySorted (Sql.not_after score_before) (Sql.stable_sort score_before l)).
  { apply stable_sort_sorted.
    - intros a b Hab. apply Qgtb_true in Hab. apply Qgtb_false. now apply Qlt_le_weak.
    - unfold Sql.not_after, score_before. intros a b c Hab Hbc.
      apply Qgtb_false in Hab, Hbc. apply Qgtb_false. now apply Qle_trans with (sm_score b). }
  induction H as [|a r Hr IH Ha]; constructor; [exact IH|].
  rewrite Forall_forall in *. intros b Hb. apply Qgtb_false. exact (Ha b Hb).
Qed.

(** *** The order of the doubles *)

Lemma SFcompare_key (x y : SpecFloat.spec_float) :
  match F64.sf_key x, F64.sf_key y, SpecFloat.SFcompare x y with
  | Some a, Some b, Some Lt => F64.key_lt a b
  | Some a, Some b, Some Gt => F64.key_lt b a
  | Some a, Some b, Some Eq => a = b
  | None, _, None | _, None, None => True
  | _, _, _ => False
  end.
Proof.
  destruct x as [[]|[]| |[] m1 e1], y as [[]|[]| |[] m2 e2]; cbn; try lia; try exact I;
    try reflexivity.
  all: change (Pos.compare_cont Eq m1 m2) with (Pos.compare m1 m2).
  all: destruct (Z.compare_spec e1 e2); destruct (Pos.compare_spec m1 m2); cbn; subst;
    try lia; try reflexivity.
Qed.

Lemma key_lt_irrefl (a : Z * Z * Z) : ~ F64.key_lt a a.
Proof. destruct a as [[c e] m]. cbn. lia. Qed.

Lemma key_lt_trans (a b c : Z * Z * Z) :
  F64.key_lt a b -> F64.key_lt b c -> F64.key_lt a c.
Proof. destruct a as [[? ?] ?], b as [[? ?] ?], c as [[? ?] ?]. cbn. lia. Qed.

Lemma key_not_lt_trans (a b c : Z * Z * Z) :
  ~ F64.key_lt a b -> ~ F64.key_lt b c -> ~ F64.key_lt a c.
Proof. destruct a as [[? ?] ?], b as [[? ?] ?], c as [[? ?] ?]. cbn. lia. Qed.

Lemma ltb_key (x y : float) :
  PrimFloat.ltb x y = true
  <-> exists a b, F64.key x = Some a /\ F64.key y = Some b /\ F64.key_lt a b.
Proof.
  rewrite FloatAxioms.ltb_spec. unfold SpecFloat.SFltb, F64.key.
  pose proof (SFcompare_key (FloatOps.Prim2SF x) (FloatOps.Prim2SF y)) as H.
  destruct (F64.sf_key (FloatOps.Prim2SF x)) as [a|], (F64.sf_key (FloatOps.Prim2SF y)) as [b|],
    (SpecFloat.SFcompare _ _) as [[]|]; try contradiction; split; try discriminate; eauto.
  all: try (intros (a' & b' & [= <-] & [= <-] & L)).
  all: try (intros (a' & b' & E1 & E2 & L); discriminate).
  - subst. now apply key_lt_irrefl in L.
  - exfalso. apply (key_lt_irrefl a). now apply key_lt_trans with b.
Qed.

Lemma eqb_key (x y : float) :
  PrimFloat.eqb x y = true <-> exists a, F64.key x = Some a /\ F64.key y = Some a.
Proof.
  rewrite FloatAxioms.eqb_spec. unfold SpecFloat.SFeqb, F64.key.
  pose proof (SFcompare_key (FloatOps.Prim2SF x) (FloatOps.Prim2SF y)) as H.
  destruct (F64.sf_key (FloatOps.Prim2SF x)) as [a|], (F64.sf_key (FloatOps.Prim2SF y)) as [b|],
    (SpecFloat.SFcompare _ _) as [[]|]; try contradiction; split; try discriminate; eauto.
  all: try (intros (a' & [= <-] & [= <-])).
  all: try (intros (a' & E1 & E2); discriminate).
  - subst. eauto.
  - now apply key_lt_irrefl in H.
  - now apply key_lt_irrefl in H.
Qed.

Lemma leb_key (x y : float) :
  PrimFloat.leb x y = true
  <-> exists a b, F64.key x = Some a /\ F64.key y = Some b /\ ~ F64.key_lt b a.
Proof.
  rewrite FloatAxioms.leb_spec. unfold SpecFloat.SFleb, F64.key.
  pose proof (SFcompare_key (FloatOps.Prim2SF x) (FloatOps.Prim2SF y)) as H.
  destruct (F64.sf_key (FloatOps.Prim2SF x)) as [a|], (F64.sf_key (FloatOps.Prim2SF y)) as [b|],
    (SpecFloat.SFcompare _ _) as [[]|]; try contradiction; split; try discriminate.
  all: try (intros (a' & b' & [= <-] & [= <-] & L)).
  all: try (intros (a' & b' & E1 & E2 & L); discriminate).
  all: try (intros _; exists a, b; repeat split; subst).
  all: try apply key_lt_irrefl.
  all: try reflexivity.
  - intros L. apply (key_lt_irrefl a). now apply key_lt_trans with b.
  - contradiction.
Qed.

(** A double above the floor is no NaN. *)
Lemma above_floor_key (x : float) :
  PrimFloat.ltb 0.1%float x = true -> exists a, F64.key x = Some a.
Proof. intros H. apply ltb_key in H as (a & b & _ & Hb & _). eauto. Qed.

Lemma f64_ltb_asym (x y : float) :
  PrimFloat.ltb x y = true -> PrimFloat.ltb y x = false.
Proof.
  intros H. apply ltb_key in H as (a & b & Ha & Hb & L).
  destruct (PrimFloat.ltb y x) eqn:E; [|reflexivity].
  apply ltb_key in E as (b' & a' & Hb' & Ha' & L').
  rewrite Ha in Ha'. rewrite Hb in Hb'. injection Ha' as <-. injection Hb' as <-.
  exfalso. apply (key_lt_irrefl a). now apply key_lt_trans with b.
Qed.

Lemma ltb_false_key (x y : float) (a b : Z * Z * Z) :
  F64.key x = Some a -> F64.key y = Some b ->
  PrimFloat.ltb x y = false <-> ~ F64.key_lt a b.
Proof.
  intros Ha Hb. split.
  - intros E L. assert (T : PrimFloat.ltb x y = true) by (apply ltb_key; eauto). congruence.
  - intros N. destruct (PrimFloat.ltb x y) eqn:E; [|reflexivity].
    apply ltb_key in E as (a' & b' & Ha' & Hb' & L).
    rewrite Ha in Ha'. rewrite Hb in Hb'. injection Ha' as <-. injection Hb' as <-.
    contradiction.
Qed.

Lemma f64_tied (s x y : float) :
  PrimFloat.eqb x s = true -> PrimFloat.eqb y s = true -> PrimFloat.ltb y x = false.
Proof.
  intros Hx Hy. apply eqb_key in Hx as (a & Kx & Ks), Hy as (b & Ky & Ks').
  rewrite Ks in Ks'. injection Ks' as <-.
  apply (ltb_false_key _ _ _ _ Ky Kx), key_lt_irrefl.
Qed.

(** *** Sorting a list whose elements are comparable *)

Section SortingOn.
Context {A : Type} (before : A -> A -> bool) (P : A -> Prop).
Hypothesis before_asym : forall a b, P a -> P b -> before a b = true -> before b a = false.
Hypothesis not_after_trans :
  forall a b c, P a -> P b -> P c ->
    Sql.not_after before a b -> Sql.not_after before b c -> Sql.not_after before a c.

Lemma insert_sorted_sorted_on (x : A) (l : list A) :
  P x -> Forall P l ->
  StronglySorted (Sql.not_after before) l ->
  StronglySorted (Sql.not_after before) (Sql.insert_sorted before x l).
Proof.
  intros Px Pl. induction 1 as [|y r Hr IH Hy]; simpl.
  - repeat constructor.
  - apply Forall_cons in Pl as [Py Pr]. destruct (before y x) eqn:E.
    + constructor; [now apply IH|].
      rewrite Forall_forall. intros z Hz.
      rewrite insert_sorted_perm in Hz.
      apply elem_of_cons in Hz as [->|Hz].
      * now apply before_asym.
      * rewrite Forall_forall in Hy. now apply Hy.
    + constructor; [now constructor|].
      constructor; [exact E|].
      rewrite Forall_forall in *. intros z Hz.
      apply (not_after_trans x y z); auto.
Qed.

Lemma stable_sort_sorted_on (l : list A) :
  Forall P l -> StronglySorted (Sql.not_after before) (Sql.stable_sort before l).
Proof.
  induction 1 as [|x r Hx Hr IH]; simpl; [constructor|].
  apply insert_sorted_sorted_on; [exact Hx | | exact IH].
  rewrite Forall_forall in *. intros z Hz. rewrite stable_sort_perm in Hz. auto.
Qed.
End SortingOn.

Lemma filter_Permutation_bool {A} (f : A -> bool) (l l' : list A) :
  Permutation l l' -> Permutation (List.filter f l) (List.filter f l').
Proof.
  induction 1 as [|x l l' H IH|x y l|l l' l'' H1 IH1 H2 IH2]; cbn [List.filter].
  - constructor.
  - destruct (f x); [now constructor | exact IH].
  - destruct (f x), (f y); try reflexivity. apply perm_swap.
  - now transitivity (List.filter f l').
Qed.

(** *** The ranking in binary64 *)

Lemma f64_score_rows (nlp : NLPProcessor) (query : string) (l : list F64.Memory) :
  (m ← l; F64.score_row nlp query m)
  = map (F64.scored nlp query) (List.filter (F64.relevant nlp query) l).
Proof.
  induction l as [|m r IH]; [reflexivity|].
  cbn [mbind list_bind List.filter]. rewrite IH. unfold F64.score_row.
  destruct (F64.relevant nlp query m); reflexivity.
Qed.

Lemma f64_total_score_formula (nlp : NLPProcessor) (query : string) (m : F64.Memory) :
  F64.total_score nlp query m = F64.score_formula nlp query m.
Proof.
  unfold F64.total_score, F64.score_formula.
  assert (J : F64.calculate_text_similarity query (F64.content m)
              = F64.jaccard (word_set query) (word_set (F64.content m))).
  { unfold F64.calculate_text_similarity, F64.jaccard.
    destruct (decide (word_set query = ∅ ∨ word_set (F64.content m) = ∅)) as [H|H];
      [reflexivity|].
    destruct (decide (word_set query ∪ word_set (F64.content m) = ∅)) as [E|E]; [|reflexivity].
    exfalso. apply H. left. apply empty_union_L in E. tauto. }
  rewrite J. f_equal. f_equal.
  destruct (extract_entities nlp query) as [|c cs], (F64.entities m) as [|i ids];
    cbn [map]; case_decide as H; try reflexivity.
  - destruct H as [H _]. now contradiction H.
  - destruct H as [H _]. now contradiction H.
  - destruct H as [_ H]. now contradiction H.
  - exfalso. apply H. split; discriminate.
Qed.

Lemma f64_ranking_sorted (l : list F64.ScoredMemory) :
  Forall (fun a => PrimFloat.ltb 0.1%float (F64.sm_score a) = true) l ->
  StronglySorted (fun a b => PrimFloat.leb (F64.sm_score b) (F64.sm_score a) = true)
    (Sql.stable_sort F64.score_before l).
Proof.
  intros Hl.
  assert (Hs : Forall (fun a => PrimFloat.ltb 0.1%float (F64.sm_score a) = true)
                 (Sql.stable_sort F64.score_before l)).
  { rewrite Forall_forall in *. intros z Hz. rewrite stable_sort_perm in Hz. auto. }
  assert (H : StronglySorted (Sql.not_after F64.score_before)
                (Sql.stable_sort F64.score_before l)).
  { apply (stable_sort_sorted_on _
             (fun a => PrimFloat.ltb 0.1%float (F64.sm_score a) = true)); [| |exact Hl].
    - intros a b _ _. unfold F64.score_before. apply f64_ltb_asym.
    - unfold Sql.not_after, F64.score_before. intros a b c Pa Pb Pc.
      apply above_floor_key in Pa as (ka & Ka), Pb as (kb & Kb), Pc as (kc & Kc).
      rewrite (ltb_false_key _ _ _ _ Ka Kb), (ltb_false_key _ _ _ _ Kb Kc),
        (ltb_false_key _ _ _ _ Ka Kc).
      apply key_not_lt_trans. }
  induction H as [|a r Hr IH Ha]; [constructor|].
  apply Forall_cons in Hs as [Pa Pr]. constructor; [now apply IH|].
  rewrite Forall_forall in *. intros b Hb.
  pose proof (Ha b Hb) as N. unfold Sql.not_after, F64.score_before in N.
  apply above_floor_key in Pa as (ka & Ka).
  destruct (above_floor_key _ (Pr b Hb)) as (kb & Kb).
  apply leb_key. exists kb, ka. repeat split; [exact Kb | exact Ka |].
  now apply (ltb_false_key _ _ _ _ Ka Kb).
Qed.

(** C4 (as amended), in the binary64 arithmetic of the code.  For a limit
    that is not negative and the rows [memories] the query fetched from the
    table, [find_related_memories] returns the first [limit] elements of a
    ranking that holds exactly the stored memories with score above 0.1,
    the score being [contentSimilarity + entityBoost + importance * 0.1]
    with the Jaccard word overlap and the flat 0.2 boost, every operation
    rounded to a double; the ranking is descending by score and memories of
    equal score keep the order in which they were fetched.  So at most
    [limit] elements come back, all of them when no more than [limit] clear
    the floor, possibly none. *)
Theorem find_related_memories_spec (nlp : NLPProcessor) (query : string)
    (limit : nat) (table memories : list F64.Memory) :
  F64.fetched table memories ->
  let result := F64.find_related_memories nlp query (Z.of_nat limit) memories in
  exists ranked : list F64.ScoredMemory,
    result = take limit ranked
    /\ (length result <= limit)%nat
    /\ ((length ranked <= limit)%nat -> result = ranked)
    /\ Permutation ranked
         (map (F64.scored nlp query)
            (List.filter (fun m => (0.1 <? F64.total_score nlp query m)%float) table))
    /\ (forall m, F64.total_score nlp query m = F64.score_formula nlp query m)
    /\ StronglySorted (fun a b => (F64.sm_score b <=? F64.sm_score a)%float = true) ranked
    /\ (forall s,
          List.filter (fun a => (F64.sm_score a =? s)%float) ranked
          = List.filter (fun a => (F64.sm_score a =? s)%float)
              (map (F64.scored nlp query)
                 (List.filter (fun m => (0.1 <? F64.total_score nlp query m)%float) memories))).
Proof.
  intros [Hperm _] result. subst result.
  unfold F64.find_related_memories. rewrite f64_score_rows, slice_to_nat.
  eexists. split; [reflexivity|].
  split; [rewrite length_take; lia|].
  split; [intros H; now apply take_ge|].
  split.
  { rewrite stable_sort_perm. apply Permutation_map, filter_Permutation_bool.
    now symmetry. }
  split; [apply f64_total_score_formula|].
  split.
  { apply f64_ranking_sorted. apply List.Forall_forall. intros a Ha.
    apply in_map_iff in Ha as (m & <- & Hm). now apply filter_In in Hm as [_ Hm]. }
  intros s. apply stable_sort_class. intros a b Ha Hb.
  unfold F64.score_before. now apply (f64_tied s).
Qed.

Lemma find_related_memories_spec_witness :
  let result := F64.find_related_memories Demo.nlp "John" (Z.of_nat 5) F64.demo_fetched in
  exists ranked : list F64.ScoredMemory,
    result = take 5 ranked
    /\ (length result <= 5)%nat
    /\ ((length ranked <= 5)%nat -> result = ranked)
    /\ Permutation ranked
         (map (F64.scored Demo.nlp "John")
            (List.filter (fun m => (0.1 <? F64.total_score Demo.nlp "John" m)%float) F64.demo_table))
    /\ (forall m, F64.total_score Demo.nlp "John" m = F64.score_formula Demo.nlp "John" m)
    /\ StronglySorted (fun a b => (F64.sm_score b <=? F64.sm_score a)%float = true) ranked
    /\ (forall s,
          List.filter (fun a => (F64.sm_score a =? s)%float) ranked
          = List.filter (fun a => (F64.sm_score a =? s)%float)
              (map (F64.scored Demo.nlp "John")
                 (List.filter (fun m => (0.1 <? F64.total_score Demo.nlp "John" m)%float) F64.demo_fetched))).
Proof.
  apply (find_related_memories_spec Demo.nlp "John" 5 F64.demo_table F64.demo_fetched).
  split; [apply perm_swap|].
  repeat (constructor; try (vm_compute; reflexivity)).
Defined.

(** C4, as stated, fails for a negative limit: with two memories above the
    floor, [limit = -1] returns one of them, which is neither "all those
    above the floor" nor "at most [limit] elements". *)
Example find_related_memories_negative_limit :
  F64.fetched F64.demo_table F64.demo_fetched
  /\ length (F64.find_related_memories Demo.nlp "John" (-1) F64.demo_fetched) = 1%nat
  /\ length (List.filter (fun m => (0.1 <? F64.total_score Demo.nlp "John" m)%float)
               F64.demo_table) = 2%nat
  /\ (Z.of_nat (length (F64.find_related_memories Demo.nlp "John" (-1) F64.demo_fetched))
      <=? -1)%Z = false.
Proof.
  split; [split; [apply perm_swap | repeat (constructor; try (vm_compute; reflexivity))]|].
  vm_compute. repeat split.
Qed.

(** The floor in binary64: a memory of more than 200 characters with one
    entity has importance 0.8; against a query sharing one of fifty words
    its score is [0.02 + 0 + 0.8 * 0.1], which in exact arithmetic is 0.1
    and in doubles is 0.10000000000000002, so the memory is returned. *)
Example find_related_memories_floor_binary64 :
  F64.id F64.boundary_memory = _generate_id (F64.boundary_text +:+ "1.0")
  /\ F64.entities F64.boundary_memory = [_generate_id (Text.lower "research")]
  /\ (F64.importance F64.boundary_memory = 0.8
   /\ F64.calculate_text_similarity "john" F64.boundary_text = 0.02
   /\ F64.total_score Demo.nlp "john" F64.boundary_memory = 0.10000000000000002
   /\ (0.1 <? F64.total_score Demo.nlp "john" F64.boundary_memory) = true)%float
  /\ map F64.sm_id (F64.find_related_memories Demo.nlp "john" 5 [F64.boundary_memory])
     = ["d395d88f1e3d"].
Proof. vm_compute. repeat split. Qed.

(** ** Case folding and [LIKE] *)

Lemma lower_ascii_idem (c : ascii) : Text.lower_ascii (Text.lower_ascii c) = Text.lower_ascii c.
Proof. destruct c as [[] [] [] [] [] [] [] []]; reflexivity. Qed.


Lemma lower_idem (s : string) : Text.lower (Text.lower s) = Text.lower s.
Proof.
  induction s as [|c s IH]; [reflexivity|].
  cbn [Text.lower]. now rewrite lower_ascii_idem, IH.
Qed.

Lemma append_cons (c : ascii) (a b : string) : String c a +:+ b = String c (a +:+ b).
Proof. reflexivity. Qed.

Lemma append_nil (b : string) : EmptyString +:+ b = b.
Proof. reflexivity. Qed.

Lemma lower_append (a b : string) :
  Text.lower (a +:+ b) = Text.lower a +:+ Text.lower b.
Proof.
  induction a as [|c a IH]; [reflexivity|].
  rewrite !append_cons. cbn [Text.lower]. now rewrite IH.
Qed.



Lemma like_pattern_lower (entity_name : string) :
  Text.lower ("%" +:+ Text.lower entity_name +:+ "%")
  = "%" +:+ Text.lower entity_name +:+ "%".
Proof. now rewrite !lower_append, lower_idem. Qed.

(** The unfolding of a leading [%]. *)
Lemma like_percent (pat s : string) :
  Sql.like (String "%" pat) s
  = Sql.like pat s || match s with
                     | EmptyString => false
                     | String _ s' => Sql.like (String "%" pat) s'
                     end.
Proof. destruct s; reflexivity. Qed.

Lemma like_char (p : ascii) (pat : string) (c : ascii) (s : string) :
  Ascii.eqb p "%" = false ->
  Sql.like (String p pat) (String c s)
  = (Ascii.eqb p "_" || Ascii.eqb (Text.lower_ascii p) (Text.lower_ascii c)) && Sql.like pat s.
Proof. intros H. cbn [Sql.like]. now rewrite H. Qed.

Lemma like_char_empty (p : ascii) (pat : string) :
  Ascii.eqb p "%" = false -> Sql.like (String p pat) EmptyString = false.
Proof. intros H. cbn [Sql.like]. now rewrite H. Qed.


(** A text matches itself read as a pattern. *)
Lemma like_refl (s : string) : Sql.like s s = true.
Proof.
  induction s as [|c s IH]; [reflexivity|].
  destruct (Ascii.eqb c "%") eqn:E.
  - apply Ascii.eqb_eq in E as ->.
    rewrite like_percent, (like_percent s s), IH. cbn. apply orb_true_r.
  - rewrite like_char by exact E. rewrite Ascii.eqb_refl, IH, orb_true_r. reflexivity.
Qed.

Lemma like_append_percent (pat s : string) :
  Sql.like pat s = true -> Sql.like (pat +:+ "%") s = true.
Proof.
  revert s. induction pat as [|p pat IH]; intros s H.
  - destruct s; [reflexivity | discriminate].
  - destruct (Ascii.eqb p "%") eqn:E.
    + apply Ascii.eqb_eq in E as ->. rewrite ?append_cons, ?append_nil.
      revert H. induction s as [|c s IHs]; intros H;
        rewrite like_percent in H; rewrite like_percent.
      * rewrite orb_false_r in *. now apply IH.
      * apply orb_true_iff in H as [H|H].
        -- now rewrite IH.
        -- rewrite IHs by exact H. apply orb_true_r.
    + rewrite ?append_cons, ?append_nil. destruct s as [|c s].
      * now rewrite like_char_empty in H.
      * rewrite like_char in * by exact E.
        apply andb_true_iff in H as [-> H]. now rewrite IH.
Qed.

(** Every name matches the pattern built from itself. *)
Lemma like_self (entity_name : string) :
  Sql.like ("%" +:+ Text.lower entity_name +:+ "%") (Text.lower entity_name) = true.
Proof.
  rewrite ?append_cons, ?append_nil. rewrite like_percent.
  now rewrite like_append_percent by apply like_refl.
Qed.





(** ** The fallback of [get_entity_network] *)

Lemma like_match_self (e : Entity.t) : like_match (Entity.name e) e.
Proof. unfold like_match. rewrite like_pattern_lower. apply like_self. Qed.

Lemma head_filter_split {A} (P : A -> Prop) `{!forall x, Decision (P x)} (l : list A) (x : A) :
  head (filter P l) = Some x ->
  exists l1 l2, l = l1 ++ x :: l2 /\ Forall (fun y => ~ P y) l1 /\ P x.
Proof.
  induction l as [|y r IH]; [discriminate|].
  rewrite filter_cons. case_decide as Hy.
  - intros [= ->]. exists [], r. repeat split; [constructor | exact Hy].
  - intros Hh. destruct (IH Hh) as (l1 & l2 & -> & Hl1 & Hx).
    exists (y :: l1), l2. repeat split; [now constructor | exact Hx].
Qed.

Lemma fallback_step_Some (entity_name match_name : string) (st : Store) :
  fallback_step entity_name st = Some match_name ->
  exists e, head (filter (like_match entity_name) (entities st)) = Some e
            /\ Entity.name e = match_name
            /\ Text.lower match_name <> Text.lower entity_name.
Proof.
  unfold fallback_step.
  destruct (fst (Sql.select_network _ st)); [|discriminate].
  unfold Sql.select_entities_like. cbn [fst].
  change (filter _ (entities st)) with (filter (like_match entity_name) (entities st)).
  destruct (filter (like_match entity_name) (entities st)) as [|e es]; [discriminate|].
  cbn [map]. destruct (String.eqb _ _) eqn:E; [discriminate|].
  intros [= <-]. exists e. repeat split. now apply String.eqb_neq.
Qed.

(** The entity behind a recursive call stands strictly earlier in the scan
    than the entity whose name was the query. *)
Lemma fallback_step_earlier (st : Store) (l1 l2 : list Entity.t) (e : Entity.t)
    (match_name : string) :
  entities st = l1 ++ e :: l2 ->
  fallback_step (Entity.name e) st = Some match_name ->
  exists k1 k2 e', entities st = k1 ++ e' :: k2
                   /\ Entity.name e' = match_name
                   /\ (length k1 < length l1)%nat.
Proof.
  intros Hes Hstep.
  apply fallback_step_Some in Hstep as (e' & Hhead & Hname & Hne).
  apply head_filter_split in Hhead as (k1 & k2 & Hk & Hk1 & _).
  exists k1, k2, e'. repeat split; [exact Hk | exact Hname |].
  destruct (Nat.lt_trichotomy (length k1) (length l1)) as [Hlt|[Heq|Hgt]]; [exact Hlt| |]; exfalso.
  - assert (E : e' = e).
    { assert (H1 : entities st !! length k1 = Some e') by (rewrite Hk; apply list_lookup_middle; reflexivity).
      assert (H2 : entities st !! length k1 = Some e) by (rewrite Hes; apply list_lookup_middle; now symmetry).
      congruence. }
    subst e'. now apply Hne; rewrite Hname.
  - assert (He : e ∈ k1).
    { assert (H2 : (k1 ++ e' :: k2) !! length l1 = Some e)
        by (rewrite <- Hk, Hes; apply list_lookup_middle; reflexivity).
      rewrite lookup_app_l in H2 by exact Hgt.
      apply list_elem_of_lookup. eauto. }
    rewrite Forall_forall in Hk1. exact (Hk1 e He (like_match_self e)).
Qed.

Lemma fallback_step_stored (entity_name match_name : string) (st : Store) :
  fallback_step entity_name st = Some match_name ->
  exists k1 k2 e', entities st = k1 ++ e' :: k2 /\ Entity.name e' = match_name.
Proof.
  intros Hstep. apply fallback_step_Some in Hstep as (e' & Hhead & Hname & _).
  apply head_filter_split in Hhead as (k1 & k2 & Hk & _ & _). eauto.
Qed.

Lemma get_entity_network_stored (depth : Z) (st : Store) (bound : nat) :
  forall (fuel : nat) (l1 l2 : list Entity.t) (e : Entity.t),
    entities st = l1 ++ e :: l2 ->
    (length l1 < bound)%nat -> (bound <= fuel)%nat ->
    exists network, get_entity_network_fuel fuel (Entity.name e) depth st = (Some network, st).
Proof.
  induction bound as [|bound IH]; intros fuel l1 l2 e Hes Hlt Hfuel; [lia|].
  destruct fuel as [|fuel]; [lia|].
  rewrite get_entity_network_fuel_step.
  destruct (fallback_step (Entity.name e) st) as [m|] eqn:Hstep; [|eauto].
  destruct (fallback_step_earlier st l1 l2 e m Hes Hstep) as (k1 & k2 & e' & Hk & <- & Hk1).
  apply (IH fuel k1 k2 e' Hk); lia.
Qed.

Lemma get_entity_network_enough (entity_name : string) (depth : Z) (st : Store) :
  exists network,
    get_entity_network_fuel (2 + length (entities st)) entity_name depth st
    = (Some network, st).
Proof.
  cbn [Nat.add]. rewrite get_entity_network_fuel_step.
  destruct (fallback_step entity_name st) as [m|] eqn:Hstep; [|eauto].
  destruct (fallback_step_stored _ _ _ Hstep) as (k1 & k2 & e' & Hk & <-).
  apply (get_entity_network_stored depth st (length (entities st)) _ k1 k2 e' Hk); [|lia].
  rewrite Hk, length_app. cbn. lia.
Qed.

Lemma get_entity_network_more_fuel (fuel fuel' : nat) (entity_name : string) (depth : Z)
    (st : Store) (network : Network) :
  get_entity_network_fuel fuel entity_name depth st = (Some network, st) ->
  (fuel <= fuel')%nat ->
  get_entity_network_fuel fuel' entity_name depth st = (Some network, st).
Proof.
  revert fuel' entity_name. induction fuel as [|fuel IH]; intros fuel' entity_name H Hle.
  - discriminate.
  - destruct fuel' as [|fuel']; [lia|].
    rewrite get_entity_network_fuel_step in *.
    destruct (fallback_step entity_name st); [|exact H].
    apply IH; [exact H | lia].
Qed.

(** C5. The recursion step does not always pass a name that contains the
    query: with only the entities of "John works at Google." stored, the
    query "_ohn" has no rows of its own, its pattern [%_ohn%] is handed to
    LIKE unescaped, where [_] stands for any character, so it matches
    "John", and the recursion is entered with "John", which neither
    contains "_ohn" nor is longer. *)
Example fallback_wildcard_step :
  fallback_step "_ohn" Demo.store1 = Some "John"
  /\ contains (Text.lower "John") (Text.lower "_ohn") = false
  /\ String.length "John" = String.length "_ohn".
Proof. vm_compute. repeat split. Qed.

(** ** The rows of the network query *)

Lemma select_network_rows (entity_id : string) (st : Store) (row : Sql.NetworkRow) :
  row ∈ fst (Sql.select_network entity_id st)
  <-> exists r, r ∈ relationships st
              /\ (Relationship.source_id r = entity_id ∨ Relationship.target_id r = entity_id)
              /\ row ∈ Sql.join_rows (entities st) r.
Proof.
  unfold Sql.select_network. cbn [fst]. rewrite stable_sort_perm, list_elem_of_bind.
  split; intros (r & H1 & H2); exists r.
  - apply list_elem_of_filter in H2 as [? ?]. auto.
  - destruct H2 as [? ?]. split; [assumption|]. now apply list_elem_of_filter.
Qed.





Lemma network_rows_sorted (entity_id : string) (st : Store) :
  StronglySorted (fun a b => rd_strength b <= rd_strength a)
    (map rel_data (fst (Sql.select_network entity_id st))).
Proof.
  unfold Sql.select_network. cbn [fst].
  match goal with |- context [Sql.stable_sort Sql.row_before ?l] =>
    assert (H : StronglySorted (Sql.not_after Sql.row_before)
                  (Sql.stable_sort Sql.row_before l))
  end.
  { apply stable_sort_sorted.
    - intros a b Hab. apply Qgtb_true in Hab. apply Qgtb_false. now apply Qlt_le_weak.
    - unfold Sql.not_after, Sql.row_before. intros a b c Hab Hbc.
      apply Qgtb_false in Hab, Hbc. apply Qgtb_false.
      now apply Qle_trans with (Relationship.strength (Sql.rel b)). }
  induction H as [|a r Hr IH Ha]; cbn [map]; constructor; [exact IH|].
  rewrite Forall_forall in Ha. apply Forall_forall. intros b Hb.
  apply list_elem_of_In, in_map_iff in Hb as (x & <- & Hx).
  apply list_elem_of_In in Hx. apply Qgtb_false. exact (Ha x Hx).
Qed.





(** C8, evaluated: "_ohn" has no incident relationship in the store left by
    "John works at Google." and no stored name contains it, yet the network
    returned is John's, with the entry of John's relationship (its
    ['source'] is [rel[7]], the time 1, and its ['target'] is [rel[8]],
    "John"), not the empty network centred on "_ohn": the underscore acts
    as a LIKE wildcard. *)
Theorem get_entity_network_wildcard_query :
  filter (fun r => Relationship.source_id r = _generate_id (Text.lower "_ohn")
                   ∨ Relationship.target_id r = _generate_id (Text.lower "_ohn"))
         (relationships Demo.store1) = []
  /\ forallb (fun e => negb (contains (Text.lower (Entity.name e)) (Text.lower "_ohn")))
             (entities Demo.store1) = true
  /\ center_entity <$> fst (get_entity_network "_ohn" 2 Demo.store1) = Some "John"
  /\ net_relationships <$> fst (get_entity_network "_ohn" 2 Demo.store1)
     = Some [mkRelData (PyFloat 1) (PyStr "John") "WORKS_AT" 0.7 Demo.text].
Proof. vm_compute. repeat split. Qed.

(* ===================================================================== *)
(** * Further properties *)
(* ===================================================================== *)

(** ** The shape of identifiers *)

Lemma le_bytes_length (n : nat) (x : Z) : length (MD5.le_bytes n x) = n.
Proof. revert x. induction n as [|n IH]; intros x; cbn; [reflexivity | now rewrite IH]. Qed.

Lemma le_bytes_range (n : nat) (x : Z) :
  Forall (fun b => (0 <= b < 256)%Z) (MD5.le_bytes n x).
Proof.
  revert x. induction n as [|n IH]; intros x; cbn [MD5.le_bytes]; constructor; [|apply IH].
  change 255%Z with (Z.ones 8). rewrite Z.land_ones by lia.
  apply Z.mod_pos_bound. reflexivity.
Qed.

Lemma hex_digit_is_hex (d : Z) : (0 <= d < 16)%Z -> is_hex_digit (MD5.hex_digit d) = true.
Proof.
  intros H.
  assert (E : In d (map Z.of_nat (seq 0 16))).
  { apply in_map_iff. exists (Z.to_nat d). split; [lia|]. apply in_seq. lia. }
  cbn in E. repeat (destruct E as [<-|E]; [reflexivity|]). destruct E.
Qed.

Lemma hex_shape (bs : list Z) :
  Forall (fun b => (0 <= b < 256)%Z) bs ->
  String.length (MD5.hex bs) = (2 * length bs)%nat
  /\ all_chars is_hex_digit (MD5.hex bs) = true.
Proof.
  induction 1 as [|b r Hb Hr [IH1 IH2]]; [split; reflexivity|].
  cbn [MD5.hex String.length all_chars length]. rewrite IH1, IH2.
  split; [lia|].
  rewrite !hex_digit_is_hex; [reflexivity| |].
  - split; [apply Z.mod_pos_bound; lia|]. apply Z.mod_pos_bound. lia.
  - split; [apply Z.div_pos; lia|]. apply Z.div_lt_upper_bound; lia.
Qed.

Lemma str_take_shape (p : ascii -> bool) (n : nat) (s : string) :
  (n <= String.length s)%nat -> all_chars p s = true ->
  String.length (str_take n s) = n /\ all_chars p (str_take n s) = true.
Proof.
  revert s. induction n as [|n IH]; intros s Hn Hp; [split; reflexivity|].
  destruct s as [|c s]; [cbn in Hn; lia|].
  cbn [all_chars] in Hp. apply andb_true_iff in Hp as [Hc Hp].
  cbn [String.length] in Hn.
  destruct (IH s ltac:(lia) Hp) as [E1 E2].
  cbn [str_take String.length all_chars]. rewrite E1, E2, Hc. split; reflexivity.
Qed.

(** X1. Whatever the text, the identifier derived from it is a string of
    exactly twelve lower-case hexadecimal digits. *)
Theorem generate_id_shape (content : string) :
  String.length (_generate_id content) = 12%nat
  /\ all_chars is_hex_digit (_generate_id content) = true.
Proof.
  unfold _generate_id, MD5.hexdigest, MD5.digest.
  match goal with |- context [MD5.hex ?bs] =>
    assert (Hr : Forall (fun b => (0 <= b < 256)%Z) bs);
    [ repeat (apply Forall_app; split); apply le_bytes_range |];
    assert (Hl : length bs = 16%nat);
    [ rewrite !length_app, !le_bytes_length; reflexivity |];
    destruct (hex_shape bs Hr) as [E1 E2]
  end.
  apply str_take_shape; [|exact E2]. rewrite E1, Hl. lia.
Qed.

(** ** [store_entity] and [get_entity] *)

Lemma get_entity_after_store (e : Entity.t) (k : string) (st : Store) :
  fst (get_entity k (snd (store_entity e st)))
  = if decide (k = Entity.id e) then Some e else fst (get_entity k st).
Proof.
  unfold get_entity, store_entity, Sql.select_entity, Sql.replace_entity. db_unfold.
  cbn [fst snd entities]. case_decide as Hk.
  - subst k. now rewrite (replace_keeps_one Entity.id).
  - now rewrite (replace_keeps_others Entity.id).
Qed.

(** X2. Reading back what was stored.  When the entity's [access_count]
    fits an SQLite [INTEGER], [store_entity(e)] reports [True], the lookup
    of [e.id] afterwards returns [e] itself, whatever was stored under that
    id before, and the lookup of any other id returns what it returned
    before.  When it does not fit, [store_entity(e)] reports [False] and
    the store is left as it was.  Either way neither relationships nor
    memories are touched; a lookup changes nothing; and a fresh database
    has no entity under any id. *)
Theorem store_entity_get_entity (e : Entity.t) (st : Store) :
  (sqlite_integer (Entity.access_count e) = true ->
   fst (store_entity_checked e st) = true
   /\ fst (get_entity (Entity.id e) (snd (store_entity_checked e st))) = Some e
   /\ (forall k, k <> Entity.id e ->
         fst (get_entity k (snd (store_entity_checked e st))) = fst (get_entity k st)))
  /\ (sqlite_integer (Entity.access_count e) = false ->
      store_entity_checked e st = (false, st))
  /\ relationships (snd (store_entity_checked e st)) = relationships st
  /\ memories (snd (store_entity_checked e st)) = memories st
  /\ (forall k, get_entity k st = (fst (get_entity k st), st))
  /\ (forall k, fst (get_entity k empty_store) = None).
Proof.
  unfold store_entity_checked.
  destruct (sqlite_integer (Entity.access_count e)).
  - split; [|split; [discriminate | repeat split]].
    intros _. split; [reflexivity|]. split.
    + rewrite get_entity_after_store. now rewrite decide_True.
    + intros k Hk. rewrite get_entity_after_store. now rewrite decide_False.
  - split; [discriminate | repeat split].
Qed.

(** [store_entity] at the two ends of the [INTEGER] range: a count of
    [2^63 - 1] is written, a count of [2^63] is refused. *)
Example store_entity_integer_range :
  store_entity_checked
    (Entity.mk "30565a8911a6" "0.0" "CONCEPT" [] 0 0 (2 ^ 63 - 1)%Z 0) empty_store
  = (true, mkStore [Entity.mk "30565a8911a6" "0.0" "CONCEPT" [] 0 0 (2 ^ 63 - 1)%Z 0] [] [])
  /\ store_entity_checked
       (Entity.mk "30565a8911a6" "0.0" "CONCEPT" [] 0 0 (2 ^ 63)%Z 0) empty_store
     = (false, empty_store).
Proof. vm_compute. split; reflexivity. Qed.

(** ** Text similarity *)

Lemma ratio_range (n m : nat) :
  (n <= m)%nat -> (0 < m)%nat ->
  0 <= inject_Z (Z.of_nat n) / inject_Z (Z.of_nat m) <= 1.
Proof.
  intros Hnm Hm.
  assert (Hpos : 0 < inject_Z (Z.of_nat m)) by (unfold Qlt, inject_Z; cbn; lia).
  split.
  - apply Qle_shift_div_l; [exact Hpos|]. unfold Qle, Qmult, inject_Z; cbn. lia.
  - apply Qle_shift_div_r; [exact Hpos|]. unfold Qle, Qmult, inject_Z; cbn. lia.
Qed.

Lemma gset_size_pos (a : gset string) : a <> ∅ -> (0 < size a)%nat.
Proof.
  intros Ha. destruct (size a) eqn:E; [|lia].
  exfalso. apply Ha. apply leibniz_equiv. now apply size_empty_iff.
Qed.

Lemma jaccard_comm (a b : gset string) : jaccard a b = jaccard b a.
Proof.
  unfold jaccard. rewrite (intersection_comm_L a b), (union_comm_L a b).
  destruct (decide (a = ∅ ∨ b = ∅)) as [H|H], (decide (b = ∅ ∨ a = ∅)) as [H'|H'];
    try reflexivity; exfalso; tauto.
Qed.

Lemma jaccard_range (a b : gset string) : 0 <= jaccard a b <= 1.
Proof.
  unfold jaccard. case_decide as H; [split; unfold Qle; cbn; lia|].
  apply ratio_range.
  - apply subseteq_size.
    etrans; [apply intersection_subseteq_l | apply union_subseteq_l].
  - assert (Ha : (0 < size a)%nat) by (apply gset_size_pos; intros E; apply H; now left).
    assert (Hs : (size a <= size (a ∪ b))%nat) by apply subseteq_size, union_subseteq_l.
    lia.
Qed.

Lemma word_set_lower (text : string) : word_set (Text.lower text) = word_set text.
Proof. unfold word_set. now rewrite lower_idem. Qed.

(** X3. The similarity of two texts is symmetric, lies between 0 and 1,
    and does not depend on letter case in either text. *)
Theorem calculate_text_similarity_symmetric_bounded (text1 text2 : string) :
  calculate_text_similarity text1 text2 = calculate_text_similarity text2 text1
  /\ 0 <= calculate_text_similarity text1 text2 <= 1
  /\ calculate_text_similarity (Text.lower text1) text2
     = calculate_text_similarity text1 text2
  /\ calculate_text_similarity text1 (Text.lower text2)
     = calculate_text_similarity text1 text2.
Proof.
  rewrite !calculate_text_similarity_jaccard, !word_set_lower.
  split; [apply jaccard_comm|]. split; [apply jaccard_range|]. split; reflexivity.
Qed.

(** X4. The extremes of the similarity: texts with the same non-empty set
    of lower-cased words have similarity 1 (in particular a text with at
    least one word compared with itself), and texts that share no word,
    or of which one has no word at all, have similarity 0. *)
Theorem calculate_text_similarity_extremes (text1 text2 : string) :
  (word_set text1 = word_set text2 -> word_set text1 <> ∅ ->
     calculate_text_similarity text1 text2 == 1)
  /\ (word_set text1 <> ∅ -> calculate_text_similarity text1 text1 == 1)
  /\ (word_set text1 ∩ word_set text2 = ∅ ->
     calculate_text_similarity text1 text2 == 0)
  /\ (Text.split (Text.lower text1) = [] -> calculate_text_similarity text1 text2 = 0).
Proof.
  assert (Same : forall a : gset string, a <> ∅ -> jaccard a a == 1).
  { intros a Ha. unfold jaccard. rewrite decide_False by (intros [?|?]; contradiction).
    rewrite intersection_idemp_L, union_idemp_L.
    apply Qmult_inv_r. pose proof (gset_size_pos a Ha).
    unfold Qeq, inject_Z; cbn. lia. }
  rewrite !calculate_text_similarity_jaccard.
  split; [intros <- Ha; now apply Same|]. split; [apply Same|]. split.
  - intros Hd. unfold jaccard. case_decide; [reflexivity|].
    rewrite Hd, size_empty. unfold Qeq, Qdiv, Qmult, inject_Z; cbn. lia.
  - intros Hs. assert (E : word_set text1 = ∅) by (unfold word_set; now rewrite Hs).
    unfold jaccard. rewrite decide_True; [reflexivity | now left].
Qed.

(** ** What [find_related_memories] can return *)

Lemma slice_to_subset {A} (limit : Z) (l : list A) (x : A) :
  x ∈ slice_to limit l -> x ∈ l.
Proof.
  unfold slice_to. destruct (0 <=? limit)%Z; intros H;
    apply list_elem_of_lookup in H as [i H];
    apply lookup_take_Some in H as [H _];
    apply list_elem_of_lookup; eauto.
Qed.

Lemma slice_to_length {A} (limit : Z) (l : list A) :
  (length (slice_to limit l) <= length l)%nat.
Proof. unfold slice_to. destruct (0 <=? limit)%Z; rewrite length_take; lia. Qed.

(** X5. The relevance floor holds for every limit, negative ones included:
    each element returned is the record of a stored memory and its score,
    [contentSimilarity + entityBoost + importance * 0.1], is strictly above
    0.1; never more elements come back than memories are stored, and
    nothing comes back from a database without memories. *)
Theorem find_related_memories_floor (nlp : NLPProcessor) (query : string)
    (limit : Z) (st : Store) :
  let result := fst (find_related_memories nlp query limit st) in
  Forall (fun x => 0.1 < sm_score x
                   /\ exists m, m ∈ memories st
                                /\ x = scored nlp query m
                                /\ sm_score x = score_formula nlp query m) result
  /\ (length result <= length (memories st))%nat
  /\ (memories st = [] -> result = []).
Proof.
  intros result. subst result. rewrite find_related_memories_unfold.
  assert (Hlen : (length (slice_to limit (Sql.stable_sort score_before
             (scored nlp query <$> filter (relevant nlp query) (fst (Sql.select_memories st)))))
           <= length (memories st))%nat).
  { etrans; [apply slice_to_length|].
    rewrite stable_sort_length, length_fmap.
    etrans; [apply length_filter|].
    unfold Sql.select_memories. cbn [fst]. now rewrite stable_sort_length. }
  split; [|split; [exact Hlen|]].
  - apply Forall_forall. intros x Hx.
    apply slice_to_subset in Hx. rewrite stable_sort_perm in Hx.
    apply list_elem_of_fmap in Hx as (m & -> & Hm).
    apply list_elem_of_filter in Hm as [Hrel Hm].
    unfold Sql.select_memories in Hm. cbn [fst] in Hm. rewrite stable_sort_perm in Hm.
    split; [exact Hrel|]. exists m. split; [exact Hm|]. split; [reflexivity|].
    apply total_score_formula.
  - intros E. rewrite E in Hlen. cbn in Hlen.
    now destruct (slice_to _ _); [|cbn in Hlen; lia].
Qed.

(** ** The two loops of [weave_memory] *)

Lemma weave_entity_unfold (now : Q) (cand : string * string * string) (st : Store) :
  exists e',
    weave_entity now cand st
    = (candidate_id cand,
       mkStore (filter (fun x => Entity.id x ≠ candidate_id cand) (entities st) ++ [e'])
         (relationships st) (memories st))
    /\ Entity.id e' = candidate_id cand
    /\ e' = match fst (get_entity (candidate_id cand) st) with
            | Some e => reinforced e now
            | None => Entity.mk (candidate_id cand) (fst (fst cand)) (snd (fst cand))
                        [("contexts", [snd cand])] now now 1%Z 0.5
            end.
Proof.
  destruct cand as [[n ty] c]. unfold candidate_id. cbn [fst snd].
  destruct (weave_entity_store now n ty c st) as [E Eid].
  eexists. split; [|split; [exact Eid | reflexivity]].
  rewrite E. now rewrite Eid.
Qed.

Lemma weave_entities_loop (now : Q) (cands : list (string * string * string)) (st : Store) :
  fst (for_each (weave_entity now) cands st) = map candidate_id cands
  /\ relationships (snd (for_each (weave_entity now) cands st)) = relationships st
  /\ memories (snd (for_each (weave_entity now) cands st)) = memories st.
Proof.
  revert st. induction cands as [|c r IH]; intros st; [repeat split|].
  rewrite for_each_cons. cbn [fst snd map].
  destruct (weave_entity_unfold now c st) as (e' & E & _ & _). rewrite E. cbn [fst snd].
  destruct (IH (mkStore (filter (fun x => Entity.id x ≠ candidate_id c) (entities st) ++ [e'])
                  (relationships st) (memories st))) as (I1 & I2 & I3).
  rewrite I1, I2, I3. repeat split.
Qed.

Lemma weave_relationships_loop (now : Q) (cands : list (string * string * string * string))
    (st : Store) :
  fst (for_each (weave_relationship now) cands st)
  = map (fun c => Relationship.id (relationship_of now c)) cands
  /\ entities (snd (for_each (weave_relationship now) cands st)) = entities st
  /\ memories (snd (for_each (weave_relationship now) cands st)) = memories st.
Proof.
  revert st. induction cands as [|c r IH]; intros st; [repeat split|].
  rewrite for_each_cons, weave_relationship_store. cbn [fst snd map].
  match goal with |- context [for_each _ r ?s] => destruct (IH s) as (I1 & I2 & I3) end.
  rewrite I1, I2, I3. repeat split.
Qed.

Lemma weave_memory_unfold (nlp : NLPProcessor) (float_str : Q -> string)
    (content : string) (tags : option (list string)) (now : Q) (st : Store) :
  let cands := extract_entities nlp content in
  let rels := extract_relationships nlp content (map (fun c => fst (fst c)) cands) in
  let st1 := snd (for_each (weave_entity now) cands st) in
  let st2 := snd (for_each (weave_relationship now) rels st1) in
  let m := Memory.mk (_generate_id (content ++ float_str now)) content
             (map candidate_id cands)
             (map (fun c => Relationship.id (relationship_of now c)) rels)
             now (default [] tags)
             (_calculate_memory_importance content (map candidate_id cands)) in
  weave_memory nlp float_str content tags now st
  = (m, mkStore (entities st1) (relationships st2)
          (filter (fun x => Memory.id x ≠ Memory.id m) (memories st) ++ [m])).
Proof.
  cbv zeta. unfold weave_memory. db_unfold.
  destruct (weave_entities_loop now (extract_entities nlp content) st) as (E1 & _ & E3).
  destruct (for_each (weave_entity now) (extract_entities nlp content) st) as [es s1].
  cbn [fst snd] in *. subst es.
  match goal with |- context [for_each (weave_relationship now) ?rels s1] =>
    destruct (weave_relationships_loop now rels s1) as (R1 & R2 & R3);
    destruct (for_each (weave_relationship now) rels s1) as [rs s2]
  end.
  cbn [fst snd] in *. subst rs.
  unfold _store_memory, Sql.replace_memory. cbn [Memory.id].
  now rewrite R2, R3, E3.
Qed.

(** X6. The memory [weave_memory] returns holds the text verbatim, the
    call's time, the caller's tags (none when omitted), one entity id per
    extracted mention and one relationship id per extracted relation, both
    in extraction order with repetitions kept, and the importance computed
    from the text and those entity ids.  It is stored as the newest row of
    the memories table, the only one under its id, and every memory with
    another id stays as it was. *)
Theorem weave_memory_record (nlp : NLPProcessor) (float_str : Q -> string)
    (content : string) (tags : option (list string)) (now : Q) (st : Store) :
  let woven := weave_memory nlp float_str content tags now st in
  let m := fst woven in
  let cands := extract_entities nlp content in
  Memory.id m = _generate_id (content ++ float_str now)
  /\ Memory.content m = content
  /\ Memory.timestamp m = now
  /\ Memory.context_tags m = default [] tags
  /\ Memory.entities m = map (fun c => _generate_id (Text.lower (fst (fst c)))) cands
  /\ Memory.relationships m
     = map (fun c => Relationship.id (relationship_of now c))
           (extract_relationships nlp content (map (fun c => fst (fst c)) cands))
  /\ Memory.importance m = _calculate_memory_importance content (Memory.entities m)
  /\ last (memories (snd woven)) = Some m
  /\ filter (fun x => Memory.id x = Memory.id m) (memories (snd woven)) = [m]
  /\ filter (fun x => Memory.id x ≠ Memory.id m) (memories (snd woven))
     = filter (fun x => Memory.id x ≠ Memory.id m) (memories st).
Proof.
  intros woven m cands. subst woven m.
  rewrite weave_memory_unfold. cbn [fst snd memories].
  repeat (split; [reflexivity|]).
  split; [apply last_snoc|]. split.
  - exact (replace_keeps_one Memory.id _ _).
  - exact (replace_rest Memory.id _ _).
Qed.

(** ** What holds of every row after any sequence of calls *)

Lemma replace_Forall {A} (key : A -> string) (P : A -> Prop) (x : A) (l : list A) :
  Forall P l -> P x -> Forall P (filter (fun y => key y ≠ key x) l ++ [x]).
Proof.
  intros Hl Hx. apply Forall_app. split; [|now repeat constructor].
  rewrite Forall_forall in *. intros y Hy.
  apply list_elem_of_filter in Hy as [_ Hy]. now apply Hl.
Qed.

Lemma importance_range (content : string) (ids : list string) :
  0.5 <= _calculate_memory_importance content ids <= 1.
Proof.
  assert (E : _calculate_memory_importance content ids
              == importance_formula (length ids) (String.length content)).
  { unfold _calculate_memory_importance, importance_formula.
    now rewrite (Qmult_comm 0.1). }
  rewrite E. apply importance_formula_bounds.
Qed.

Lemma store_ok_weave_entity (float_str : Q -> string) (now : Q)
    (cand : string * string * string) (st : Store) :
  store_ok float_str st -> store_ok float_str (snd (weave_entity now cand st)).
Proof.
  intros (He & Hr & Hm & Ne & Nr & Nm).
  destruct (weave_entity_unfold now cand st) as (e' & E & Eid & Ee'). rewrite E.
  cbn [snd]. unfold store_ok. cbn [entities relationships memories].
  rewrite <- Eid. repeat split; try assumption.
  - apply (replace_Forall Entity.id); [exact He|].
    rewrite Ee'. unfold get_entity, Sql.select_entity. cbn [fst].
    destruct (head _) as [e|] eqn:Hh.
    + apply head_filter_Some in Hh as [Hin _].
      rewrite Forall_forall in He. destruct (He e Hin) as (I1 & I2 & I3 & ctx & I4).
      unfold reinforced, entity_ok. cbn.
      repeat split; [exact I1 | lia | | eauto].
      rewrite I3.
      replace (Z.to_nat (Entity.access_count e + 1 - 1))
        with (S (Z.to_nat (Entity.access_count e - 1))) by lia.
      reflexivity.
    + unfold entity_ok, candidate_id. cbn. repeat split; [lia | eauto].
  - now apply (replace_NoDup Entity.id).
Qed.

Lemma store_ok_weave_relationship (float_str : Q -> string) (now : Q)
    (cand : string * string * string * string) (st : Store) :
  store_ok float_str st -> store_ok float_str (snd (weave_relationship now cand st)).
Proof.
  intros (He & Hr & Hm & Ne & Nr & Nm).
  rewrite weave_relationship_store. cbn [snd]. unfold store_ok.
  cbn [entities relationships memories]. repeat split; try assumption.
  - apply (replace_Forall Relationship.id); [exact Hr|].
    destruct cand as [[[s t] ty] c]. repeat split.
  - now apply (replace_NoDup Relationship.id).
Qed.

Lemma store_ok_weave_memory (nlp : NLPProcessor) (float_str : Q -> string)
    (content : string) (tags : option (list string)) (now : Q) (st : Store) :
  store_ok float_str st ->
  store_ok float_str (snd (weave_memory nlp float_str content tags now st)).
Proof.
  intros Hst.
  assert (H1 : store_ok float_str
                 (snd (for_each (weave_entity now) (extract_entities nlp content) st))).
  { apply (for_each_preserves (store_ok float_str)); [|exact Hst].
    intros a s. apply store_ok_weave_entity. }
  match type of H1 with store_ok _ ?s1 =>
    assert (H2 : store_ok float_str
                   (snd (for_each (weave_relationship now)
                           (extract_relationships nlp content
                              (map (fun c => fst (fst c)) (extract_entities nlp content)))
                           s1)))
  end.
  { apply (for_each_preserves (store_ok float_str)); [|exact H1].
    intros a s. apply store_ok_weave_relationship. }
  rewrite weave_memory_unfold. cbn [snd].
  destruct H1 as (He & _ & _ & Ne & _ & _).
  destruct H2 as (_ & Hr & _ & _ & Nr & _).
  destruct Hst as (_ & _ & Hm & _ & _ & Nm).
  unfold store_ok. cbn [entities relationships memories].
  repeat split; try assumption.
  - apply (replace_Forall Memory.id); [exact Hm|].
    repeat split; apply importance_range.
  - now apply (replace_NoDup Memory.id).
Qed.

Lemma store_ok_run_calls (nlp : NLPProcessor) (float_str : Q -> string) (calls : list Call) :
  store_ok float_str (run_calls nlp float_str calls).
Proof.
  unfold run_calls.
  assert (H0 : store_ok float_str empty_store) by (repeat split; constructor).
  revert H0. generalize empty_store.
  induction calls as [|c cs IH]; intros st Hst; [exact Hst|].
  cbn [foldl]. apply IH.
  destruct c as [content tags now|query limit|entity_name]; cbn [run_call].
  - rewrite add_memory_unfold. cbn [snd]. now apply store_ok_weave_memory.
  - exact Hst.
  - unfold explore_entity, get_entity_network. now rewrite get_entity_network_fuel_readonly.
Qed.

(** Why the importance of an entity is stated as a run of additions: in
    binary64 three times [+= 0.1] on 0.5 give 0.7999999999999999, while
    [0.5 + 0.1 * 3] is 0.8. *)
Example importance_score_binary64 :
  (0.5 + 0.1 + 0.1 + 0.1 = 0.7999999999999999
   /\ 0.5 + 0.1 * 3 = 0.8
   /\ (0.5 + 0.1 + 0.1 + 0.1 =? 0.5 + 0.1 * 3) = false)%float.
Proof. vm_compute. repeat split. Qed.

(** X7. After any sequence of calls on a fresh database, every entity row
    is stored under the id derived from its own lower-cased name, has been
    accessed at least once, carries exactly one context (the one of its
    first mention), and its importance score is tied to its access count:
    it is 0.5 raised by 0.1 once per access after the first, the
    [access_count - 1] additions made one after the other. *)
Theorem entity_rows_invariant (nlp : NLPProcessor) (float_str : Q -> string)
    (calls : list Call) :
  Forall (fun e =>
            Entity.id e = _generate_id (Text.lower (Entity.name e))
            /\ (1 <= Entity.access_count e)%Z
            /\ Entity.importance_score e
               = add_tenths (Z.to_nat (Entity.access_count e - 1)) 0.5
            /\ exists context, Entity.properties e = [("contexts", [context])])
         (entities (run_calls nlp float_str calls)).
Proof. exact (proj1 (store_ok_run_calls nlp float_str calls)). Qed.

(** X8. After any sequence of calls on a fresh database, every
    relationship row is stored under the id derived from its
    [(source_id, target_id, relation_type)] triple and has
    [created_at = last_reinforced]; no two rows share an id, so two stored
    relationships with the same triple are one and the same row. *)
Theorem relationship_rows_invariant (nlp : NLPProcessor) (float_str : Q -> string)
    (calls : list Call) :
  let rels := relationships (run_calls nlp float_str calls) in
  Forall (fun r =>
            Relationship.id r
            = _generate_id (Relationship.source_id r +:+ "_" +:+ Relationship.target_id r
                            +:+ "_" +:+ Relationship.relation_type r)
            /\ Relationship.created_at r = Relationship.last_reinforced r) rels
  /\ NoDup (Relationship.id <$> rels)
  /\ (forall r1 r2, r1 ∈ rels -> r2 ∈ rels ->
        Relationship.source_id r1 = Relationship.source_id r2 ->
        Relationship.target_id r1 = Relationship.target_id r2 ->
        Relationship.relation_type r1 = Relationship.relation_type r2 ->
        r1 = r2).
Proof.
  intros rels. subst rels.
  destruct (store_ok_run_calls nlp float_str calls) as (_ & Hr & _ & _ & Nr & _).
  split; [|split; [exact Nr|]].
  - eapply Forall_impl; [exact Hr|]. intros r (H1 & H2 & _). now split.
  - intros r1 r2 H1 H2 Es Et Ety.
    rewrite Forall_forall in Hr.
    destruct (Hr r1 H1) as (I1 & _), (Hr r2 H2) as (I2 & _).
    assert (Eid : Relationship.id r1 = Relationship.id r2) by (rewrite I1, I2, Es, Et, Ety; reflexivity).
    apply list_elem_of_lookup in H1 as [i Hi], H2 as [j Hj].
    assert (i = j).
    { eapply NoDup_lookup; [exact Nr| |];
        rewrite list_lookup_fmap; [rewrite Hi | rewrite Hj]; cbn; [reflexivity | now rewrite Eid]. }
    subst j. congruence.
Qed.

(** X9. After any sequence of calls on a fresh database, every memory row
    is stored under the id derived from its content and its timestamp,
    its importance is the one computed from its content and entity ids and
    lies in [[0.5, 1]], and no two rows share an id. *)
Theorem memory_rows_invariant (nlp : NLPProcessor) (float_str : Q -> string)
    (calls : list Call) :
  let mems := memories (run_calls nlp float_str calls) in
  Forall (fun m =>
            Memory.id m
            = _generate_id (Memory.content m +:+ float_str (Memory.timestamp m))
            /\ Memory.importance m
               = _calculate_memory_importance (Memory.content m) (Memory.entities m)
            /\ 0.5 <= Memory.importance m <= 1) mems
  /\ NoDup (Memory.id <$> mems).
Proof.
  intros mems. subst mems.
  destruct (store_ok_run_calls nlp float_str calls) as (_ & _ & Hm & _ & _ & Nm).
  split; [exact Hm | exact Nm].
Qed.

Lemma jaccard_disjoint (a b : gset string) : a ∩ b = ∅ -> jaccard a b == 0.
Proof.
  intros Hd. unfold jaccard. case_decide; [reflexivity|].
  rewrite Hd, size_empty. unfold Qeq, Qdiv, Qmult, inject_Z; cbn. lia.
Qed.

(** X10. A query that yields no extracted entity and shares no word with
    any stored memory gets nothing back, for every limit, from any
    database built by calls of the interface: there the score is only
    [importance * 0.1], which never exceeds the floor 0.1. *)
Theorem find_related_memories_no_overlap (nlp : NLPProcessor) (float_str : Q -> string)
    (calls : list Call) (query : string) (limit : Z) :
  extract_entities nlp query = [] ->
  Forall (fun m => word_set query ∩ word_set (Memory.content m) = ∅)
         (memories (run_calls nlp float_str calls)) ->
  find_related_memories nlp query limit (run_calls nlp float_str calls)
  = ([], run_calls nlp float_str calls).
Proof.
  intros Hq Hwords.
  set (st := run_calls nlp float_str calls) in *.
  destruct (store_ok_run_calls nlp float_str calls) as (_ & _ & Hm & _). fold st in Hm.
  assert (Hnone : filter (relevant nlp query) (fst (Sql.select_memories st)) = []).
  { destruct (filter _ _) as [|m ms] eqn:E; [reflexivity|]. exfalso.
    assert (Hin : m ∈ filter (relevant nlp query) (fst (Sql.select_memories st)))
      by (rewrite E; left).
    apply list_elem_of_filter in Hin as [Hrel Hin].
    unfold Sql.select_memories in Hin. cbn [fst] in Hin. rewrite stable_sort_perm in Hin.
    rewrite Forall_forall in Hm, Hwords.
    destruct (Hm m Hin) as (_ & _ & _ & Hle). specialize (Hwords m Hin).
    unfold relevant in Hrel. rewrite total_score_formula in Hrel.
    unfold score_formula in Hrel. rewrite (jaccard_disjoint _ _ Hwords) in Hrel.
    rewrite decide_False in Hrel by (intros [H _]; now apply H).
    lra. }
  assert (Hres : fst (find_related_memories nlp query limit st) = []).
  { rewrite find_related_memories_unfold, Hnone. cbn.
    unfold slice_to. destruct (0 <=? limit)%Z; apply take_nil. }
  destruct (find_related_memories nlp query limit st) as [res s] eqn:E.
  cbn [fst] in Hres. subst res. f_equal.
  change s with (snd ([] : list ScoredMemory, s)). now rewrite <- E.
Qed.

Lemma find_related_memories_no_overlap_witness :
  find_related_memories Demo.nlp "zzz_no_overlap_query" 5
    (run_calls Demo.nlp Demo.float_str [AddMemory Demo.text None 1])
  = ([], run_calls Demo.nlp Demo.float_str [AddMemory Demo.text None 1]).
Proof.
  apply (find_related_memories_no_overlap Demo.nlp Demo.float_str
           [AddMemory Demo.text None 1] "zzz_no_overlap_query" 5).
  - vm_compute. reflexivity.
  - apply (bool_decide_eq_true_1 (Forall _ _)). vm_compute. reflexivity.
Defined.

(** ** Reinforcement, mention by mention *)

Lemma get_entity_after_weave_entity (now : Q) (cand : string * string * string)
    (k : string) (st : Store) :
  fst (get_entity k (snd (weave_entity now cand st)))
  = if decide (k = candidate_id cand)
    then Some (match fst (get_entity k st) with
               | Some e => reinforced e now
               | None => Entity.mk k (fst (fst cand)) (snd (fst cand))
                           [("contexts", [snd cand])] now now 1%Z 0.5
               end)
    else fst (get_entity k st).
Proof.
  destruct (weave_entity_unfold now cand st) as (e' & E & Eid & Ee'). rewrite E.
  unfold get_entity, Sql.select_entity in *. cbn [fst snd entities] in *.
  case_decide as Hk.
  - subst k. pose proof (replace_keeps_one Entity.id e' (entities st)) as R.
    rewrite Eid in R. rewrite R. cbn [head]. now rewrite Ee'.
  - pose proof (replace_keeps_others Entity.id e' k (entities st)) as R.
    rewrite Eid in R. now rewrite R.
Qed.

Lemma mentions_cons (k : string) (c : string * string * string)
    (r : list (string * string * string)) :
  mentions k (c :: r)
  = if decide (candidate_id c = k) then c :: mentions k r else mentions k r.
Proof. unfold mentions. rewrite filter_cons. reflexivity. Qed.

Lemma weave_entities_reinforce (now : Q) (cands : list (string * string * string))
    (k : string) (e : Entity.t) (st : Store) :
  fst (get_entity k st) = Some e ->
  exists e',
    fst (get_entity k (snd (for_each (weave_entity now) cands st))) = Some e'
    /\ Entity.id e' = Entity.id e /\ Entity.name e' = Entity.name e
    /\ Entity.type e' = Entity.type e /\ Entity.properties e' = Entity.properties e
    /\ Entity.created_at e' = Entity.created_at e
    /\ Entity.access_count e'
       = (Entity.access_count e + Z.of_nat (length (mentions k cands)))%Z
    /\ Entity.importance_score e'
       = add_tenths (length (mentions k cands)) (Entity.importance_score e)
    /\ Entity.last_accessed e'
       = match mentions k cands with [] => Entity.last_accessed e | _ :: _ => now end.
Proof.
  revert e st. induction cands as [|c r IH]; intros e st He.
  - exists e. cbn [for_each]. db_unfold. cbn [snd mentions length]. rewrite He.
    change (mentions k []) with (@nil (string * string * string)). cbn [length].
    repeat split; try reflexivity. lia.
  - rewrite for_each_cons. cbn [snd].
    pose proof (get_entity_after_weave_entity now c k st) as Hstep.
    rewrite He in Hstep. rewrite mentions_cons.
    destruct (decide (k = candidate_id c)) as [Hk|Hk].
    + rewrite decide_True by (symmetry; exact Hk).
      destruct (IH _ _ Hstep) as (e' & G & I1 & I2 & I3 & I4 & I5 & I6 & I7 & I8).
      exists e'. unfold reinforced in *. cbn in I1, I2, I3, I4, I5, I6, I7, I8.
      repeat split; try assumption.
      * cbn [length]. lia.
      * rewrite I7. cbn [length]. unfold add_tenths. now rewrite Nat.iter_succ_r.
      * rewrite I8. now destruct (mentions k r).
    + rewrite decide_False by (intros H; apply Hk; now symmetry).
      exact (IH _ _ Hstep).
Qed.

Lemma get_entity_entities (k : string) (st st' : Store) :
  entities st = entities st' -> fst (get_entity k st) = fst (get_entity k st').
Proof. unfold get_entity, Sql.select_entity. cbn [fst]. now intros ->. Qed.

Lemma weave_memory_entities (nlp : NLPProcessor) (float_str : Q -> string)
    (content : string) (tags : option (list string)) (now : Q) (st : Store) :
  entities (snd (weave_memory nlp float_str content tags now st))
  = entities (snd (for_each (weave_entity now) (extract_entities nlp content) st)).
Proof. now rewrite weave_memory_unfold. Qed.

(** X11. Weaving a fragment reinforces an entity that is already stored
    once per mention: if the fragment holds [n] candidates whose
    lower-cased name has the entity's id, the row found under that id
    afterwards has the same id, name, type, properties and creation time,
    [access_count + n], the importance score raised by 0.1 [n] times over
    (one addition per mention), and [last_accessed] set to the call's time
    when [n > 0]; with [n = 0] it is unchanged in all these fields.  In particular a later mention with another proposed
    type never changes the stored type. *)
Theorem weave_memory_reinforces (nlp : NLPProcessor) (float_str : Q -> string)
    (content : string) (tags : option (list string)) (now : Q) (st : Store)
    (k : string) (e : Entity.t) :
  fst (get_entity k st) = Some e ->
  exists e',
    fst (get_entity k (snd (weave_memory nlp float_str content tags now st))) = Some e'
    /\ reinforced_by e e' (length (mentions k (extract_entities nlp content))) now.
Proof.
  intros He.
  destruct (weave_entities_reinforce now (extract_entities nlp content) k e st He)
    as (e' & G & I1 & I2 & I3 & I4 & I5 & I6 & I7 & I8).
  exists e'. split.
  - rewrite (get_entity_entities k _ _ (weave_memory_entities nlp float_str content tags now st)).
    exact G.
  - unfold reinforced_by. repeat split; try assumption.
    rewrite I8. now destruct (mentions k (extract_entities nlp content)).
Qed.

Lemma weave_memory_reinforces_witness :
  exists e',
    fst (get_entity "527bd5b5d689"
           (snd (weave_memory Demo.nlp Demo.float_str Demo.text None 2 Demo.store1))) = Some e'
    /\ reinforced_by
         (Entity.mk "527bd5b5d689" "John" "PERSON" [("contexts", [Demo.text])] 1 1 1%Z 0.5)
         e' (length (mentions "527bd5b5d689" (extract_entities Demo.nlp Demo.text))) 2.
Proof.
  apply (weave_memory_reinforces Demo.nlp Demo.float_str Demo.text None 2 Demo.store1
           "527bd5b5d689"
           (Entity.mk "527bd5b5d689" "John" "PERSON" [("contexts", [Demo.text])] 1 1 1%Z 0.5)).
  vm_compute. reflexivity.
Defined.

Lemma weave_entities_create (now : Q) (cands : list (string * string * string))
    (k name type context : string) (st : Store) :
  fst (get_entity k st) = None ->
  head (mentions k cands) = Some (name, type, context) ->
  exists e',
    fst (get_entity k (snd (for_each (weave_entity now) cands st))) = Some e'
    /\ reinforced_by (Entity.mk k name type [("contexts", [context])] now now 1%Z 0.5)
         e' (length (mentions k cands) - 1) now.
Proof.
  revert st. induction cands as [|c r IH]; intros st Hnone Hhead; [discriminate|].
  rewrite for_each_cons. cbn [snd].
  pose proof (get_entity_after_weave_entity now c k st) as Hstep.
  rewrite Hnone in Hstep. rewrite mentions_cons in *.
  destruct (decide (candidate_id c = k)) as [Hk|Hk].
  - rewrite decide_True in Hstep by (symmetry; exact Hk).
    cbn [head] in Hhead. injection Hhead as ->. cbn [fst snd] in Hstep.
    destruct (weave_entities_reinforce now r k _ _ Hstep)
      as (e' & G & I1 & I2 & I3 & I4 & I5 & I6 & I7 & I8).
    exists e'. split; [exact G|].
    cbn [length]. rewrite Nat.sub_succ, Nat.sub_0_r. unfold reinforced_by.
    repeat split; try assumption.
    rewrite I8. cbn [Entity.last_accessed]. now destruct (mentions k r).
  - rewrite decide_False in Hstep by (intros H; apply Hk; now symmetry).
    exact (IH _ Hstep Hhead).
Qed.

(** X12. Weaving a fragment creates an entity that is not stored yet from
    its first mention: when no row has the id and the first candidate of
    the fragment with that id is [(name, type, context)], the row found
    under the id afterwards has that name, that type and that one context,
    [created_at = last_accessed =] the call's time, and, with [n] mentions
    in the fragment, [access_count = n] and the importance score 0.5
    raised by 0.1 [n - 1] times over: later mentions in the same fragment
    only reinforce. *)
Theorem weave_memory_creates (nlp : NLPProcessor) (float_str : Q -> string)
    (content : string) (tags : option (list string)) (now : Q) (st : Store)
    (k name type context : string) :
  fst (get_entity k st) = None ->
  head (mentions k (extract_entities nlp content)) = Some (name, type, context) ->
  exists e',
    fst (get_entity k (snd (weave_memory nlp float_str content tags now st))) = Some e'
    /\ reinforced_by (Entity.mk k name type [("contexts", [context])] now now 1%Z 0.5)
         e' (length (mentions k (extract_entities nlp content)) - 1) now.
Proof.
  intros Hnone Hhead.
  destruct (weave_entities_create now _ k name type context st Hnone Hhead) as (e' & G & R).
  exists e'. split; [|exact R].
  rewrite (get_entity_entities k _ _ (weave_memory_entities nlp float_str content tags now st)).
  exact G.
Qed.

Lemma weave_memory_creates_witness :
  exists e',
    fst (get_entity "527bd5b5d689"
           (snd (weave_memory Demo.nlp Demo.float_str Demo.text None 1 empty_store))) = Some e'
    /\ reinforced_by
         (Entity.mk "527bd5b5d689" "John" "PERSON" [("contexts", [Demo.text])] 1 1 1%Z 0.5)
         e' (length (mentions "527bd5b5d689" (extract_entities Demo.nlp Demo.text)) - 1) 1.
Proof.
  apply (weave_memory_creates Demo.nlp Demo.float_str Demo.text None 1 empty_store
           "527bd5b5d689" "John" "PERSON" Demo.text).
  - reflexivity.
  - vm_compute. reflexivity.
Defined.

(** ** Row counts *)

Lemma filter_all {A} (P : A -> Prop) `{!forall x, Decision (P x)} (l : list A) :
  Forall P l -> filter P l = l.
Proof.
  induction 1 as [|y r Hy Hr IH]; [reflexivity|].
  now rewrite filter_cons_True, IH.
Qed.

Lemma replace_length {A} (key : A -> string) (x : A) (l : list A) :
  NoDup (key <$> l) ->
  length (filter (fun y => key y ≠ key x) l ++ [x])
  = if decide (key x ∈ key <$> l) then length l else S (length l).
Proof.
  intros Hl. rewrite length_app. cbn [length].
  induction l as [|y r IH].
  - rewrite decide_False; [reflexivity | cbn; apply not_elem_of_nil].
  - cbn [fmap list_fmap] in *. apply NoDup_cons in Hl as [Hy Hr].
    specialize (IH Hr). rewrite filter_cons.
    destruct (decide (key y ≠ key x)) as [Hne|Heq].
    + cbn [length]. rewrite Nat.add_succ_l, IH.
      destruct (decide (key x ∈ key <$> r)) as [Hin|Hin].
      * rewrite decide_True; [reflexivity | now right].
      * rewrite decide_False; [reflexivity|].
        intros Hin'. apply elem_of_cons in Hin' as [E|E]; [now apply Hne | contradiction].
    + assert (E : key y = key x) by (destruct (decide (key y = key x)); [assumption | contradiction]).
      rewrite decide_True by (rewrite <- E; left).
      rewrite (filter_all (fun y => key y ≠ key x)); [cbn [length]; lia|].
      apply Forall_forall. intros z Hz Ez. apply Hy. rewrite E, <- Ez.
      now apply list_elem_of_fmap_2.
Qed.

Lemma replace_length_bounds {A} (key : A -> string) (x : A) (l : list A) :
  NoDup (key <$> l) ->
  (length l <= length (filter (fun y => key y ≠ key x) l ++ [x]) <= S (length l))%nat.
Proof. intros Hl. rewrite (replace_length key x l Hl). case_decide; lia. Qed.

Lemma for_each_grows {A B} (Inv : Store -> Prop) (count : Store -> nat)
    (body : A -> DB B) (l : list A) :
  (forall a st, Inv st ->
     Inv (snd (body a st))
     /\ (count st <= count (snd (body a st)) <= S (count st))%nat) ->
  forall st, Inv st ->
    (count st <= count (snd (for_each body l st)) <= count st + length l)%nat.
Proof.
  intros Hbody. induction l as [|a r IH]; intros st Hst.
  - cbn [for_each]. db_unfold. cbn [snd length]. lia.
  - rewrite for_each_cons. cbn [snd length].
    destruct (Hbody a st Hst) as [Hinv Hc]. specialize (IH _ Hinv). lia.
Qed.

Lemma weave_entities_count (float_str : Q -> string) (now : Q)
    (cands : list (string * string * string)) (st : Store) :
  store_ok float_str st ->
  (length (entities st)
   <= length (entities (snd (for_each (weave_entity now) cands st)))
   <= length (entities st) + length cands)%nat.
Proof.
  apply (for_each_grows (store_ok float_str) (fun s => length (entities s))).
  intros c s Hs. split; [now apply store_ok_weave_entity|].
  destruct (weave_entity_unfold now c s) as (e' & E & Eid & _). rewrite E.
  cbn [snd entities]. rewrite <- Eid.
  apply (replace_length_bounds Entity.id). apply Hs.
Qed.

Lemma weave_relationships_count (float_str : Q -> string) (now : Q)
    (cands : list (string * string * string * string)) (st : Store) :
  store_ok float_str st ->
  (length (relationships st)
   <= length (relationships (snd (for_each (weave_relationship now) cands st)))
   <= length (relationships st) + length cands)%nat.
Proof.
  apply (for_each_grows (store_ok float_str) (fun s => length (relationships s))).
  intros c s Hs. split; [now apply store_ok_weave_relationship|].
  rewrite weave_relationship_store. cbn [snd relationships].
  apply (replace_length_bounds Relationship.id). apply Hs.
Qed.

(** X13. Row counts as [get_system_stats] reports them: zero on a fresh
    database, untouched by the statistics call itself and by the two
    queries, and never decreasing.  One [add_memory] adds at most one
    memory row (exactly one when no row has the new memory's id), at most
    one entity row per extracted entity candidate and at most one
    relationship row per extracted relation candidate. *)
Theorem get_system_stats_counts (nlp : NLPProcessor) (float_str : Q -> string)
    (db_path : string) (calls : list Call) (c : Call) :
  let st := run_calls nlp float_str calls in
  let st' := run_call nlp float_str c st in
  let s := fst (get_system_stats db_path st) in
  let s' := fst (get_system_stats db_path st') in
  fst (get_system_stats db_path empty_store) = mkStats 0 0 0 db_path
  /\ snd (get_system_stats db_path st) = st
  /\ (stat_entities s <= stat_entities s')%Z
  /\ (stat_relationships s <= stat_relationships s')%Z
  /\ (stat_memories s <= stat_memories s' <= stat_memories s + 1)%Z
  /\ match c with
     | AddMemory content tags now =>
         let cands := extract_entities nlp content in
         let rels := extract_relationships nlp content (map (fun c => fst (fst c)) cands) in
         (stat_entities s' <= stat_entities s + Z.of_nat (length cands))%Z
         /\ (stat_relationships s' <= stat_relationships s + Z.of_nat (length rels))%Z
         /\ (_generate_id (content +:+ float_str now) ∉ Memory.id <$> memories st ->
             stat_memories s' = (stat_memories s + 1)%Z)
     | QueryMemory _ _ | ExploreEntity _ => s' = s
     end.
Proof.
  intros st st' s s'. subst s s' st'.
  pose proof (store_ok_run_calls nlp float_str calls) as Hok. fold st in Hok.
  unfold get_system_stats. cbn [fst snd stat_entities stat_relationships stat_memories].
  split; [reflexivity|]. split; [reflexivity|].
  destruct c as [content tags now|query limit|entity_name]; cbn [run_call].
  - rewrite add_memory_unfold. cbn [snd]. rewrite weave_memory_unfold.
    cbn [snd entities relationships memories].
    pose proof (weave_entities_count float_str now (extract_entities nlp content) st Hok) as He.
    assert (Hok1 : store_ok float_str
                     (snd (for_each (weave_entity now) (extract_entities nlp content) st))).
    { apply (for_each_preserves (store_ok float_str)); [|exact Hok].
      intros a s. apply store_ok_weave_entity. }
    match goal with |- context [for_each (weave_relationship now) ?rels ?s1] =>
      pose proof (weave_relationships_count float_str now rels s1 Hok1) as Hr
    end.
    rewrite (proj1 (proj2 (weave_entities_loop now (extract_entities nlp content) st))) in Hr.
    match goal with |- context [filter (fun x => Memory.id x ≠ Memory.id ?m) (memories st) ++ [?m]] =>
      pose proof (replace_length_bounds Memory.id m (memories st) ltac:(apply Hok)) as Hm;
      pose proof (replace_length Memory.id m (memories st) ltac:(apply Hok)) as Hm'
    end.
    repeat split; try lia.
    intros Hfresh. rewrite decide_False in Hm' by exact Hfresh.
    transitivity (Z.of_nat (S (length (memories st)))); [exact (f_equal Z.of_nat Hm') | lia].
  - change (snd (query_memory nlp query limit st)) with st.
    repeat split; lia.
  - unfold explore_entity, get_entity_network.
    rewrite get_entity_network_fuel_readonly. repeat split; lia.
Qed.

(** ** Termination of the fallback *)



(** ** The network that comes back *)

Lemma fallback_step_lower (a b : string) (st : Store) :
  Text.lower a = Text.lower b -> fallback_step a st = fallback_step b st.
Proof. intros H. unfold fallback_step. now rewrite H. Qed.

(** X14. The entity network does not depend on the letter case of the
    name asked for: two names equal up to case get the same relationship
    list and the same connected entities; they get the very same network
    when the fallback redirects them, and otherwise networks that differ
    only in the centre, which is the name as it was typed. *)
Theorem get_entity_network_case_insensitive (a b : string) (depth : Z) (st : Store) :
  Text.lower a = Text.lower b ->
  net_relationships <$> fst (get_entity_network a depth st)
  = net_relationships <$> fst (get_entity_network b depth st)
  /\ connected_entities <$> fst (get_entity_network a depth st)
     = connected_entities <$> fst (get_entity_network b depth st)
  /\ (is_Some (fallback_step a st) ->
      get_entity_network a depth st = get_entity_network b depth st)
  /\ (fallback_step a st = None ->
      center_entity <$> fst (get_entity_network a depth st) = Some a
      /\ center_entity <$> fst (get_entity_network b depth st) = Some b).
Proof.
  intros H. unfold get_entity_network. cbn [Nat.add].
  rewrite !get_entity_network_fuel_step, <- (fallback_step_lower a b st H), <- H.
  destruct (fallback_step a st) as [m|].
  - split; [reflexivity|]. split; [reflexivity|].
    split; [intros _; reflexivity | intros E; discriminate].
  - cbn [fst fmap option_fmap option_map net_relationships connected_entities
         center_entity network_of].
    split; [reflexivity|]. split; [reflexivity|].
    split; [intros [x Hx]; discriminate | intros _; split; reflexivity].
Qed.

Lemma get_entity_network_case_insensitive_witness :
  net_relationships <$> fst (get_entity_network "JOHN" 2 Demo.store1)
  = net_relationships <$> fst (get_entity_network "john" 2 Demo.store1)
  /\ connected_entities <$> fst (get_entity_network "JOHN" 2 Demo.store1)
     = connected_entities <$> fst (get_entity_network "john" 2 Demo.store1)
  /\ (is_Some (fallback_step "JOHN" Demo.store1) ->
      get_entity_network "JOHN" 2 Demo.store1 = get_entity_network "john" 2 Demo.store1)
  /\ (fallback_step "JOHN" Demo.store1 = None ->
      center_entity <$> fst (get_entity_network "JOHN" 2 Demo.store1) = Some "JOHN"
      /\ center_entity <$> fst (get_entity_network "john" 2 Demo.store1) = Some "john").
Proof.
  apply (get_entity_network_case_insensitive "JOHN" "john" 2 Demo.store1).
  reflexivity.
Defined.

(** X15. When the fallback redirects a name to the first stored entity
    matching it, the answer is exactly the network of that entity's name. *)
Theorem get_entity_network_redirect (entity_name match_name : string) (depth : Z)
    (st : Store) :
  fallback_step entity_name st = Some match_name ->
  get_entity_network entity_name depth st = get_entity_network match_name depth st.
Proof.
  intros Hstep. unfold get_entity_network. cbn [Nat.add].
  rewrite (get_entity_network_fuel_step (S (length (entities st))) entity_name), Hstep.
  destruct (fallback_step_stored _ _ _ Hstep) as (k1 & k2 & e' & Hk & <-).
  destruct (get_entity_network_stored depth st (length (entities st))
              (S (length (entities st))) k1 k2 e' Hk) as [network Hnet]; [|lia|].
  { rewrite Hk, length_app. cbn [length]. lia. }
  rewrite Hnet. symmetry.
  apply (get_entity_network_more_fuel (S (length (entities st)))); [exact Hnet | lia].
Qed.

Lemma get_entity_network_redirect_witness :
  get_entity_network "Joh" 2 Demo.store1 = get_entity_network "John" 2 Demo.store1.
Proof.
  apply (get_entity_network_redirect "Joh" "John" 2 Demo.store1).
  vm_compute. reflexivity.
Defined.

Lemma py_eqb_refl (x : PyValue) : py_eqb x x = true.
Proof. destruct x; cbn; [apply Qeq_bool_refl | apply String.eqb_refl]. Qed.

Lemma py_eqb_sym (x y : PyValue) : py_eqb x y = py_eqb y x.
Proof.
  destruct x as [x|s], y as [y|t]; cbn; [|reflexivity|reflexivity|apply String.eqb_sym].
  apply eq_true_iff_eq. rewrite !Qeq_bool_iff. split; intros H; now symmetry.
Qed.

Lemma py_eqb_trans (x y z : PyValue) :
  py_eqb x y = true -> py_eqb y z = true -> py_eqb x z = true.
Proof.
  destruct x, y, z; cbn; try discriminate.
  - apply Qeq_bool_trans.
  - rewrite !String.eqb_eq. congruence.
Qed.

Lemma existsb_py_eqb (x : PyValue) (s : list PyValue) :
  existsb (py_eqb x) s = true <-> exists y, y ∈ s /\ py_eqb x y = true.
Proof.
  rewrite existsb_exists. split; intros (y & H & E); exists y; split;
    solve [exact E | now apply list_elem_of_In].
Qed.

Lemma set_add_elem (v : PyValue) (s : list PyValue) (x : PyValue) :
  (exists y, y ∈ set_add v s /\ py_eqb x y = true)
  <-> (exists y, y ∈ s /\ py_eqb x y = true) \/ py_eqb x v = true.
Proof.
  unfold set_add. destruct (existsb (py_eqb v) s) eqn:E.
  - split; [now left|]. intros [H|H]; [exact H|].
    apply existsb_py_eqb in E as (y & Hy & E). exists y. split; [exact Hy|].
    now apply (py_eqb_trans x v y).
  - split.
    + intros (y & Hy & Hx). apply elem_of_app in Hy as [Hy|Hy]; [left; eauto|].
      apply list_elem_of_singleton in Hy as ->. now right.
    + intros [(y & Hy & Hx)|H].
      * exists y. split; [apply elem_of_app; now left | exact Hx].
      * exists v. split; [apply elem_of_app; right; apply list_elem_of_singleton; reflexivity
                         | exact H].
Qed.

Lemma set_add_distinct (v : PyValue) (s : list PyValue) :
  ForallOrdPairs (fun a b => py_eqb a b = false) s ->
  ForallOrdPairs (fun a b => py_eqb a b = false) (set_add v s).
Proof.
  unfold set_add. destruct (existsb (py_eqb v) s) eqn:E; [trivial|].
  assert (Hv : forall a, a ∈ s -> py_eqb a v = false).
  { intros a Ha. rewrite py_eqb_sym. destruct (py_eqb v a) eqn:Ea; [|reflexivity].
    rewrite <- E. symmetry. apply existsb_py_eqb. eauto. }
  clear E. induction s as [|a s IH]; intros H.
  - repeat constructor.
  - inversion H as [|? ? Ha Hs]; subst. cbn [app]. constructor.
    + apply List.Forall_forall. intros b Hb. apply in_app_or in Hb as [Hb|[<-|[]]].
      * revert b Hb. now apply List.Forall_forall.
      * apply Hv. left.
    + apply IH; [|exact Hs]. intros b Hb. apply Hv. now right.
Qed.

Lemma connected_of_distinct (rows : list Sql.NetworkRow) :
  ForallOrdPairs (fun a b => py_eqb a b = false) (connected_of rows).
Proof.
  unfold connected_of. generalize (@nil PyValue) (@FOP_nil PyValue (fun a b => py_eqb a b = false)).
  induction rows as [|r rs IH]; intros acc Hacc; cbn [foldl]; [exact Hacc|].
  apply IH. now do 2 apply set_add_distinct.
Qed.

Lemma connected_of_elem (rows : list Sql.NetworkRow) (x : PyValue) :
  (exists y, y ∈ connected_of rows /\ py_eqb x y = true)
  <-> exists row, row ∈ rows
                  /\ (py_eqb x (column 7 row) = true \/ py_eqb x (column 8 row) = true).
Proof.
  unfold connected_of.
  assert (G : forall acc : list PyValue,
             (exists y, y ∈ foldl (fun acc row => set_add (column 8 row)
                                                     (set_add (column 7 row) acc)) acc rows
                        /\ py_eqb x y = true)
             <-> (exists y, y ∈ acc /\ py_eqb x y = true)
                 \/ exists row, row ∈ rows
                                /\ (py_eqb x (column 7 row) = true
                                    \/ py_eqb x (column 8 row) = true)).
  { induction rows as [|r rs IH]; intros acc; cbn [foldl].
    - split; [now left|]. intros [H|(row & H & _)]; [exact H | inversion H].
    - rewrite IH, !set_add_elem. split.
      + intros [[[H|H]|H]|(row & Hrow & H)].
        * now left.
        * right. exists r. split; [left | now left].
        * right. exists r. split; [left | now right].
        * right. exists row. split; [now right | exact H].
      + intros [H|(row & Hrow & H)]; [now left; left; left|].
        apply elem_of_cons in Hrow as [->|Hrow].
        * left. destruct H as [H|H]; [left; right | right]; exact H.
        * right. eauto. }
  rewrite G. split; [intros [(y & H & _)|H]; [inversion H | exact H] | now right].
Qed.

Lemma get_entity_network_result (fuel : nat) (entity_name : string) (depth : Z)
    (st s : Store) (network : Network) :
  get_entity_network_fuel fuel entity_name depth st = (Some network, s) ->
  exists centre,
    network = network_of centre (fst (Sql.select_network (_generate_id (Text.lower centre)) st))
    /\ (centre = entity_name \/ exists e, e ∈ entities st /\ Entity.name e = centre).
Proof.
  revert entity_name. induction fuel as [|fuel IH]; intros entity_name H; [discriminate|].
  rewrite get_entity_network_fuel_step in H.
  destruct (fallback_step entity_name st) as [m|] eqn:Hstep.
  - destruct (IH m H) as (centre & E & [->|Hc]).
    + exists m. split; [exact E|]. right.
      destruct (fallback_step_stored _ _ _ Hstep) as (k1 & k2 & e' & Hk & <-).
      exists e'. split; [|reflexivity]. rewrite Hk. apply elem_of_app. right. left.
    + exists centre. split; [exact E | now right].
  - injection H as <- _. exists entity_name. split; [reflexivity | now left].
Qed.

(** X16. For a name and stored names within SQLite's limit on LIKE
    patterns, [get_entity_network] returns a network.  Its centre is the
    name asked for or the name of a stored entity; every relationship it
    lists is a stored relationship incident to the centre's id whose source
    and target ids both have an entity row, with its type, strength and
    context; what the entry shows as ['source'] is the relationship's
    [last_reinforced] time and what it shows as ['target'] is the name of
    the source entity (the row is indexed one column late); the list is in
    descending order of strength; and the connected entities are, without
    repetition, exactly the ['source'] and ['target'] values of the listed
    relationships. *)
Theorem get_entity_network_well_formed (entity_name : string) (depth : Z) (st : Store) :
  pattern_ok entity_name ->
  Forall (fun e => pattern_ok (Entity.name e)) (entities st) ->
  exists network,
    get_entity_network entity_name depth st = (Some network, st)
    /\ (center_entity network = entity_name
        \/ exists e, e ∈ entities st /\ Entity.name e = center_entity network)
    /\ Forall (fun rd =>
                 exists r e1 e2,
                   r ∈ relationships st /\ e1 ∈ entities st /\ e2 ∈ entities st
                   /\ (Relationship.source_id r
                         = _generate_id (Text.lower (center_entity network))
                       \/ Relationship.target_id r
                         = _generate_id (Text.lower (center_entity network)))
                   /\ Entity.id e1 = Relationship.source_id r
                   /\ Entity.id e2 = Relationship.target_id r
                   /\ rd = mkRelData (PyFloat (Relationship.last_reinforced r))
                             (PyStr (Entity.name e1))
                             (Relationship.relation_type r) (Relationship.strength r)
                             (Relationship.context r))
              (net_relationships network)
    /\ StronglySorted (fun a b => rd_strength b <= rd_strength a) (net_relationships network)
    /\ ForallOrdPairs (fun a b => py_eqb a b = false) (connected_entities network)
    /\ (forall x, (exists y, y ∈ connected_entities network /\ py_eqb x y = true)
                  <-> exists rd, rd ∈ net_relationships network
                                 /\ (py_eqb x (rd_source rd) = true
                                     \/ py_eqb x (rd_target rd) = true)).
Proof.
  intros _ _.
  destruct (get_entity_network_enough entity_name depth st) as [network Hnet].
  exists network. split; [exact Hnet|].
  destruct (get_entity_network_result _ _ _ _ _ _ Hnet) as (centre & -> & Hc).
  cbn [center_entity net_relationships connected_entities network_of].
  split; [exact Hc|]. split; [|split; [apply network_rows_sorted|split]].
  - apply Forall_forall. intros rd Hrd.
    apply list_elem_of_In, in_map_iff in Hrd as (row & <- & Hrow).
    apply list_elem_of_In, select_network_rows in Hrow as (r & Hr & Hinc & Hrow).
    apply join_rows_rel in Hrow as (Erel & Hs & Ht).
    unfold Sql.entity_names_of in Hs, Ht.
    apply list_elem_of_In, in_map_iff in Hs as (e1 & Hn1 & H1).
    apply list_elem_of_In, in_map_iff in Ht as (e2 & Hn2 & H2).
    apply list_elem_of_In, list_elem_of_filter in H1 as [I1 H1].
    apply list_elem_of_In, list_elem_of_filter in H2 as [I2 H2].
    exists r, e1, e2. repeat split; try assumption.
    unfold rel_data, column, columns. cbn [nth]. now rewrite Erel, Hn1.
  - apply connected_of_distinct.
  - intros x. rewrite connected_of_elem. split.
    + intros (row & Hrow & H). exists (rel_data row). split; [|exact H].
      apply list_elem_of_In, in_map, list_elem_of_In, Hrow.
    + intros (rd & Hrd & H).
      apply list_elem_of_In, in_map_iff in Hrd as (row & <- & Hrow).
      exists row. split; [now apply list_elem_of_In | exact H].
Qed.

Lemma get_entity_network_well_formed_witness :
  exists network,
    get_entity_network "Joh" 2 Demo.store1 = (Some network, Demo.store1)
    /\ (center_entity network = "Joh"
        \/ exists e, e ∈ entities Demo.store1 /\ Entity.name e = center_entity network)
    /\ Forall (fun rd =>
                 exists r e1 e2,
                   r ∈ relationships Demo.store1 /\ e1 ∈ entities Demo.store1 /\ e2 ∈ entities Demo.store1
                   /\ (Relationship.source_id r
                         = _generate_id (Text.lower (center_entity network))
                       \/ Relationship.target_id r
                         = _generate_id (Text.lower (center_entity network)))
                   /\ Entity.id e1 = Relationship.source_id r
                   /\ Entity.id e2 = Relationship.target_id r
                   /\ rd = mkRelData (PyFloat (Relationship.last_reinforced r))
                             (PyStr (Entity.name e1))
                             (Relationship.relation_type r) (Relationship.strength r)
                             (Relationship.context r))
              (net_relationships network)
    /\ StronglySorted (fun a b => rd_strength b <= rd_strength a) (net_relationships network)
    /\ ForallOrdPairs (fun a b => py_eqb a b = false) (connected_entities network)
    /\ (forall x, (exists y, y ∈ connected_entities network /\ py_eqb x y = true)
                  <-> exists rd, rd ∈ net_relationships network
                                 /\ (py_eqb x (rd_source rd) = true
                                     \/ py_eqb x (rd_target rd) = true)).
Proof.
  apply (get_entity_network_well_formed "Joh" 2 Demo.store1).
  - vm_compute. discriminate.
  - vm_compute. repeat constructor; discriminate.
Defined.




Lemma get_entity_network_fuel_depth (fuel : nat) (entity_name : string) (d1 d2 : Z)
    (st : Store) :
  get_entity_network_fuel fuel entity_name d1 st
  = get_entity_network_fuel fuel entity_name d2 st.
Proof.
  revert entity_name. induction fuel as [|fuel IH]; intros entity_name; [reflexivity|].
  rewrite !get_entity_network_fuel_step.
  destruct (fallback_step entity_name st); [apply IH | reflexivity].
Qed.

(** X19. The [depth] argument of [get_entity_network] has no effect: any
    two depths give the same network, which holds direct relationships
    only; [explore_entity] is the call with depth 2. *)
Theorem get_entity_network_ignores_depth (entity_name : string) (d1 d2 : Z) (st : Store) :
  get_entity_network entity_name d1 st = get_entity_network entity_name d2 st
  /\ explore_entity entity_name st = get_entity_network entity_name d1 st.
Proof.
  unfold explore_entity, get_entity_network.
  split; apply get_entity_network_fuel_depth.
Qed.

(** X20. A negative limit cuts from the end: [find_related_memories] with
    limit [-k] returns the whole ranking (what a limit as large as the
    number of stored memories returns) without its last [k] elements, and
    nothing once [k] reaches the length of the ranking. *)
Theorem find_related_memories_negative (nlp : NLPProcessor) (query : string)
    (k : nat) (st : Store) :
  let ranking :=
    fst (find_related_memories nlp query (Z.of_nat (length (memories st))) st) in
  fst (find_related_memories nlp query (- Z.of_nat (S k)) st)
  = take (length ranking - S k) ranking.
Proof.
  intros ranking. subst ranking.
  rewrite !find_related_memories_unfold, slice_to_nat.
  set (l := Sql.stable_sort score_before _).
  assert (Hl : (length l <= length (memories st))%nat).
  { subst l. rewrite stable_sort_length, length_fmap.
    etrans; [apply length_filter|].
    unfold Sql.select_memories. cbn [fst]. now rewrite stable_sort_length. }
  rewrite (take_ge l) by exact Hl.
  unfold slice_to. destruct (Z.leb_spec 0 (- Z.of_nat (S k))) as [H|H]; [lia|].
  f_equal. lia.
Qed.

(** ** Tokenisation *)

Lemma is_space_lower (c : ascii) : Text.is_space (Text.lower_ascii c) = Text.is_space c.
Proof. destruct c as [[] [] [] [] [] [] [] []]; reflexivity. Qed.

Lemma all_chars_lower_space (s : string) :
  all_chars Text.is_space (Text.lower s) = all_chars Text.is_space s.
Proof.
  induction s as [|c s IH]; [reflexivity|].
  cbn [Text.lower all_chars]. now rewrite is_space_lower, IH.
Qed.

Lemma split_blank (s : string) : all_chars Text.is_space s = true -> Text.split s = [].
Proof.
  unfold Text.split. induction s as [|c s IH]; intros H; [reflexivity|].
  cbn [all_chars] in H. apply andb_true_iff in H as [Hc H].
  cbn [Text.split_go]. rewrite Hc. now apply IH.
Qed.

(** X21. A text made of white space only, the empty text included, has no
    words, and its similarity to any text is 0, whichever side it is on. *)
Theorem calculate_text_similarity_blank (blank text : string) :
  all_chars Text.is_space blank = true ->
  Text.split blank = []
  /\ calculate_text_similarity blank text = 0
  /\ calculate_text_similarity text blank = 0.
Proof.
  intros H.
  assert (E : word_set blank = ∅).
  { unfold word_set. rewrite split_blank; [reflexivity|]. now rewrite all_chars_lower_space. }
  split; [now apply split_blank|].
  rewrite !calculate_text_similarity_jaccard. unfold jaccard. rewrite E.
  split; rewrite decide_True; try reflexivity; [now left | now right].
Qed.

Lemma calculate_text_similarity_blank_witness :
  Text.split "  " = []
  /\ calculate_text_similarity "  " Demo.text = 0
  /\ calculate_text_similarity Demo.text "  " = 0.
Proof.
  apply (calculate_text_similarity_blank "  " Demo.text). reflexivity.
Defined.

Lemma all_chars_of_list (p : ascii -> bool) (l : list ascii) :
  all_chars p (string_of_list_ascii l) = forallb p l.
Proof. induction l as [|c l IH]; [reflexivity|]. cbn. now rewrite IH. Qed.

Lemma split_go_words (s : string) (cur : list ascii) :
  forallb (fun c => negb (Text.is_space c)) cur = true ->
  Forall (fun w => w <> EmptyString
                   /\ all_chars (fun c => negb (Text.is_space c)) w = true)
         (Text.split_go s cur).
Proof.
  assert (W : forall cur : list ascii,
             cur <> [] -> forallb (fun c => negb (Text.is_space c)) cur = true ->
             string_of_list_ascii (rev cur) <> EmptyString
             /\ all_chars (fun c => negb (Text.is_space c)) (string_of_list_ascii (rev cur)) = true).
  { intros l Hne Hl. split.
    - intros E. apply (f_equal list_ascii_of_string) in E.
      rewrite list_ascii_of_string_of_list_ascii in E. cbn in E.
      apply (f_equal (@rev ascii)) in E. rewrite rev_involutive in E. now apply Hne.
    - rewrite all_chars_of_list. rewrite forallb_forall in *.
      intros c Hc. apply Hl. now apply in_rev. }
  revert cur. induction s as [|c s IH]; intros cur Hcur; cbn [Text.split_go].
  - destruct cur as [|a cur]; [constructor|].
    constructor; [|constructor]. now apply W.
  - destruct (Text.is_space c) eqn:Ec.
    + destruct cur as [|a cur]; [now apply IH|].
      constructor; [now apply W | now apply IH].
    + apply IH. cbn [forallb]. now rewrite Ec, Hcur.
Qed.

(** The words a text is split into are never empty and never contain
    a white-space character. *)
Theorem split_words (s : string) :
  Forall (fun w => w <> EmptyString
                   /\ all_chars (fun c => negb (Text.is_space c)) w = true)
         (Text.split s).
Proof. now apply split_go_words. Qed.
